(** * byok-sdk-ts: the SSE stream decoder and the HTTP error classifier

    A shallow embedding of [src/streaming.ts] ([parseSSEStream]) and
    [src/errors.ts] ([throwForStatus]), together with the parts of the
    JavaScript platform these two functions call: UTF-16 strings and their
    methods, the streaming UTF-8 [TextDecoder], [JSON.parse], property
    access on parsed values, [parseInt], [Headers.get], and the conversion
    of a value to a string in the constructor of [Error]. *)

From Stdlib Require Import String Ascii Strings.Byte DecimalString.
From Stdlib Require Import ZArith List Bool Lia.
Import ListNotations.
Local Open Scope Z_scope.
Set Warnings "-register-all".

(** ** JavaScript strings

    A JavaScript string is a sequence of UTF-16 code units. *)

Definition jstring := list Z.

Definition jstring_eqb (a b : jstring) : bool :=
  if list_eq_dec Z.eq_dec a b then true else false.

(** A literal of the source, written in ASCII. *)
Definition lit (s : string) : jstring :=
  map (fun a => Z.of_N (N_of_ascii a)) (list_ascii_of_string s).

(** The same, with every apostrophe standing for a double quote; used to
    write JSON text and the wire examples. *)
Definition unquote (a : ascii) : ascii :=
  if Ascii.eqb a "'"%char then ascii_of_nat 34 else a.

Definition litq (s : string) : jstring :=
  map (fun a => Z.of_N (N_of_ascii (unquote a))) (list_ascii_of_string s).

Definition bytesq (s : string) : list byte :=
  map (fun a => byte_of_ascii (unquote a)) (list_ascii_of_string s).

(** WhiteSpace and LineTerminator code units, the ones [String.prototype.trim]
    strips. *)
Definition is_js_whitespace (c : Z) : bool :=
  (c =? 9) || (c =? 10) || (c =? 11) || (c =? 12) || (c =? 13) || (c =? 32)
  || (c =? 160) || (c =? 5760) || ((8192 <=? c) && (c <=? 8202))
  || (c =? 8232) || (c =? 8233) || (c =? 8239) || (c =? 8287)
  || (c =? 12288) || (c =? 65279).

Fixpoint drop_while (p : Z -> bool) (s : jstring) : jstring :=
  match s with
  | [] => []
  | c :: s' => if p c then drop_while p s' else s
  end.

Definition trimStart (s : jstring) : jstring := drop_while is_js_whitespace s.
Definition trimEnd (s : jstring) : jstring :=
  rev (drop_while is_js_whitespace (rev s)).

(** [s.trim()] *)
Definition trim (s : jstring) : jstring := trimEnd (trimStart s).

(** [s.startsWith(p)] *)
Fixpoint startsWith (s p : jstring) : bool :=
  match p, s with
  | [], _ => true
  | _ :: _, [] => false
  | a :: p', b :: s' => (a =? b) && startsWith s' p'
  end.

(** [s.slice(n)] for a non-negative [n]. *)
Definition slice (n : nat) (s : jstring) : jstring := skipn n s.

(** [s.split("\n")]: never empty; the last element is what follows the last
    line feed. *)
Fixpoint split_lf (s : jstring) : list jstring :=
  match s with
  | [] => [[]]
  | c :: s' =>
      if c =? 10 then [] :: split_lf s'
      else match split_lf s' with
           | l :: ls => (c :: l) :: ls
           | [] => [[c]]
           end
  end.

(** ** The streaming UTF-8 decoder behind [new TextDecoder()]

    The decoder of the WHATWG Encoding Standard, byte by byte, with error
    mode replacement (a [TextDecoder] built without options is not fatal)
    and the byte order mark stripped once. *)

Module Utf8.

Record state := mk_state {
  code_point : Z;
  bytes_seen : Z;
  bytes_needed : Z;
  lower_boundary : Z;
  upper_boundary : Z
}.

Definition initial : state := mk_state 0 0 0 128 191.

Definition in_range (lo hi b : Z) : bool := (lo <=? b) && (b <=? hi).

(** The handler when no continuation byte is awaited. It returns the new
    state and the code points emitted. *)
Definition handle_lead (b : Z) : state * list Z :=
  if in_range 0 127 b then (initial, [b])
  else if in_range 194 223 b then (mk_state (Z.land b 31) 0 1 128 191, [])
  else if in_range 224 239 b then
    (mk_state (Z.land b 15) 0 2
       (if b =? 224 then 160 else 128) (if b =? 237 then 159 else 191), [])
  else if in_range 240 244 b then
    (mk_state (Z.land b 7) 0 3
       (if b =? 240 then 144 else 128) (if b =? 244 then 143 else 191), [])
  else (initial, [65533]).

(** One byte of input. A byte outside the awaited range ends the pending
    sequence with U+FFFD and is then handled afresh (the standard puts it
    back on the queue). *)
Definition handle (st : state) (b : Z) : state * list Z :=
  if bytes_needed st =? 0 then handle_lead b
  else if negb (in_range (lower_boundary st) (upper_boundary st) b) then
    let '(st', out) := handle_lead b in (st', 65533 :: out)
  else
    let cp := Z.lor (Z.shiftl (code_point st) 6) (Z.land b 63) in
    let seen := bytes_seen st + 1 in
    if seen =? bytes_needed st then (initial, [cp])
    else (mk_state cp seen (bytes_needed st) 128 191, []).

End Utf8.

(** The state a [TextDecoder] keeps between [decode(value, {stream: true})]
    calls: the UTF-8 decoder and the "BOM seen" flag. *)
Record TextDecoder := mk_decoder {
  utf8 : Utf8.state;
  bom_seen : bool
}.

Definition new_TextDecoder : TextDecoder := mk_decoder Utf8.initial false.

(** A code point as UTF-16 code units. *)
Definition code_units (cp : Z) : jstring :=
  if cp <? 65536 then [cp]
  else [55296 + Z.shiftr (cp - 65536) 10; 56320 + Z.land (cp - 65536) 1023].

(** Serialising the decoded code points: the first one is dropped when it is
    U+FEFF. *)
Fixpoint serialize (bom : bool) (cps : list Z) : bool * jstring :=
  match cps with
  | [] => (bom, [])
  | cp :: rest =>
      if bom then let '(b, s) := serialize true rest in (b, code_units cp ++ s)
      else if cp =? 65279 then serialize true rest
      else let '(b, s) := serialize true rest in (b, code_units cp ++ s)
  end.

Definition decode_byte (d : TextDecoder) (b : byte) : TextDecoder * jstring :=
  let '(st, cps) := Utf8.handle (utf8 d) (Z.of_N (Byte.to_N b)) in
  let '(bom, s) := serialize (bom_seen d) cps in
  (mk_decoder st bom, s).

(** [decoder.decode(value, { stream: true })]: the bytes of [value] go through
    the decoder one by one; nothing is flushed at the end of [value]. *)
Fixpoint decode (d : TextDecoder) (value : list byte) : TextDecoder * jstring :=
  match value with
  | [] => (d, [])
  | b :: rest =>
      let '(d1, s1) := decode_byte d b in
      let '(d2, s2) := decode d1 rest in
      (d2, s1 ++ s2)
  end.

(** ** JavaScript values, as far as [JSON.parse] produces them *)

(** A number is kept as the decimal it was written as,
    [(-1)^neg * digits * 10^exponent]; the double it denotes is that decimal
    rounded to nearest. [NaN] is what [parseInt] gives without digits. *)
Inductive number :=
| NaN
| Dec (neg : bool) (digits : Z) (exponent : Z).

Inductive value :=
| VUndefined
| VNull
| VBool (b : bool)
| VNumber (n : number)
| VString (s : jstring)
| VArray (elements : list value)
| VObject (members : list (jstring * value)).

(** Whether the double nearest to the decimal is not zero: the digits are not
    all zero and the decimal lies above 2^-1075, half the least subnormal. *)
Definition number_nonzero (n : number) : bool :=
  match n with
  | NaN => false
  | Dec _ m e =>
      (0 <? m) &&
      (if 0 <=? e then true else 10 ^ (- e) <? m * 2 ^ 1075)
  end.

(** ToBoolean *)
Definition truthy (v : value) : bool :=
  match v with
  | VUndefined | VNull => false
  | VBool b => b
  | VNumber n => number_nonzero n
  | VString s => negb (jstring_eqb s [])
  | VArray _ | VObject _ => true
  end.

(** The own property [k] of an object literal; of two members with one key
    the later one stays. *)
Fixpoint own_property (k : jstring) (members : list (jstring * value))
  : option value :=
  match members with
  | [] => None
  | (k', v) :: rest =>
      match own_property k rest with
      | Some v' => Some v'
      | None => if jstring_eqb k k' then Some v else None
      end
  end.

(** [v.name] for the property names the two functions read ([choices],
    [delta], [content], [finish_reason], [error], [message], [code], [type],
    [details]) and a [v] that is neither null nor undefined: only an object
    can have them, no prototype defines them. *)
Definition get (v : value) (name : jstring) : value :=
  match v with
  | VObject members =>
      match own_property name members with
      | Some x => x
      | None => VUndefined
      end
  | _ => VUndefined
  end.

(** [v[0]] for a [v] that is neither null nor undefined: the first element of
    an array, the first code unit of a string, the property ["0"] of an
    object. *)
Definition get0 (v : value) : value :=
  match v with
  | VArray (x :: _) => x
  | VString (c :: _) => VString [c]
  | VObject members =>
      match own_property [48] members with
      | Some x => x
      | None => VUndefined
      end
  | _ => VUndefined
  end.

Definition nullish (v : value) : bool :=
  match v with
  | VUndefined | VNull => true
  | _ => false
  end.

(** [v?.name] and [v?.[0]] *)
Definition opt_get (v : value) (name : jstring) : value :=
  if nullish v then VUndefined else get v name.

Definition opt_get0 (v : value) : value :=
  if nullish v then VUndefined else get0 v.

(** ** [JSON.parse] *)

Inductive parse_result (A : Type) :=
| Parsed (a : A) (rest : jstring)
| SyntaxError
| OutOfFuel.
Arguments Parsed {A} a rest.
Arguments SyntaxError {A}.
Arguments OutOfFuel {A}.

Definition is_json_ws (c : Z) : bool :=
  (c =? 9) || (c =? 10) || (c =? 13) || (c =? 32).

Definition skip_ws (s : jstring) : jstring := drop_while is_json_ws s.

Definition is_digit (c : Z) : bool := (48 <=? c) && (c <=? 57).

Fixpoint take_digits (s : jstring) : list Z * jstring :=
  match s with
  | [] => ([], [])
  | c :: s' =>
      if is_digit c then let '(ds, r) := take_digits s' in (c :: ds, r)
      else ([], s)
  end.

Definition digits_value (ds : list Z) : Z :=
  fold_left (fun acc d => acc * 10 + (d - 48)) ds 0.

Definition hex_value (c : Z) : option Z :=
  if is_digit c then Some (c - 48)
  else if (97 <=? c) && (c <=? 102) then Some (c - 87)
  else if (65 <=? c) && (c <=? 70) then Some (c - 55)
  else None.

Definition hex4 (a b c d : Z) : option Z :=
  match hex_value a, hex_value b, hex_value c, hex_value d with
  | Some x, Some y, Some z, Some w => Some (((x * 16 + y) * 16 + z) * 16 + w)
  | _, _, _, _ => None
  end.

Definition simple_escape (c : Z) : option Z :=
  if c =? 34 then Some 34          (* quotation mark *)
  else if c =? 92 then Some 92     (* reverse solidus *)
  else if c =? 47 then Some 47     (* solidus *)
  else if c =? 98 then Some 8      (* b: backspace *)
  else if c =? 102 then Some 12    (* f: form feed *)
  else if c =? 110 then Some 10    (* n: line feed *)
  else if c =? 114 then Some 13    (* r: carriage return *)
  else if c =? 116 then Some 9     (* t: tab *)
  else None.

(** The characters of a string literal after its opening quote, up to and
    including the closing one. *)
Fixpoint parse_chars (s : jstring) : option (jstring * jstring) :=
  match s with
  | [] => None
  | c :: s' =>
      if c =? 34 then Some ([], s')
      else if c =? 92 then
        match s' with
        | [] => None
        | e :: s'' =>
            if e =? 117 then
              match s'' with
              | h1 :: h2 :: h3 :: h4 :: s5 =>
                  match hex4 h1 h2 h3 h4, parse_chars s5 with
                  | Some u, Some (cs, r) => Some (u :: cs, r)
                  | _, _ => None
                  end
              | _ => None
              end
            else
              match simple_escape e, parse_chars s'' with
              | Some u, Some (cs, r) => Some (u :: cs, r)
              | _, _ => None
              end
        end
      else if c <? 32 then None
      else
        match parse_chars s' with
        | Some (cs, r) => Some (c :: cs, r)
        | None => None
        end
  end.

(** An optional sign before digits, as in an exponent and in [parseInt]. *)
Definition strip_sign (s : jstring) : bool * jstring :=
  match s with
  | 45 :: r => (true, r)
  | 43 :: r => (false, r)
  | _ => (false, s)
  end.

Definition parse_minus (s : jstring) : bool * jstring :=
  match s with
  | 45 :: r => (true, r)
  | _ => (false, s)
  end.

(** An optional fraction: a point and at least one digit. *)
Definition parse_fraction (s : jstring) : option (list Z * jstring) :=
  match s with
  | 46 :: r =>
      let '(f, r') := take_digits r in
      match f with
      | [] => None
      | _ :: _ => Some (f, r')
      end
  | _ => Some ([], s)
  end.

(** An optional exponent: e or E, an optional sign and at least one digit. *)
Definition parse_exponent (s : jstring) : option (Z * jstring) :=
  match s with
  | c :: r =>
      if (c =? 101) || (c =? 69) then
        let '(eneg, r1) := strip_sign r in
        let '(es, r2) := take_digits r1 in
        match es with
        | [] => None
        | _ :: _ =>
            Some ((if eneg then - digits_value es else digits_value es), r2)
        end
      else Some (0, s)
  | [] => Some (0, s)
  end.

(** A number literal: an optional minus sign; the integer part, a single 0 or
    digits not starting with 0; the fraction; the exponent. *)
Definition parse_number (s : jstring) : option (number * jstring) :=
  let '(neg, s1) := parse_minus s in
  let '(int, s2) := take_digits s1 in
  match int with
  | [] => None
  | d :: ds =>
      if (d =? 48) && negb (match ds with [] => true | _ => false end)
      then None
      else
        match parse_fraction s2 with
        | None => None
        | Some (f, s3) =>
            match parse_exponent s3 with
            | None => None
            | Some (e, s4) =>
                Some (Dec neg (digits_value (int ++ f))
                        (e - Z.of_nat (length f)), s4)
            end
        end
  end.

Fixpoint parse_value (fuel : nat) (s : jstring) {struct fuel}
  : parse_result value :=
  match fuel with
  | O => OutOfFuel
  | S fuel' =>
      match s with
      | [] => SyntaxError
      | c :: s' =>
          if c =? 34 then
            match parse_chars s' with
            | Some (cs, r) => Parsed (VString cs) r
            | None => SyntaxError
            end
          else if c =? 91 then
            match skip_ws s' with
            | 93 :: r => Parsed (VArray []) r
            | r =>
                match parse_elements fuel' r with
                | Parsed vs r' => Parsed (VArray vs) r'
                | SyntaxError => SyntaxError
                | OutOfFuel => OutOfFuel
                end
            end
          else if c =? 123 then
            match skip_ws s' with
            | 125 :: r => Parsed (VObject []) r
            | r =>
                match parse_members fuel' r with
                | Parsed ms r' => Parsed (VObject ms) r'
                | SyntaxError => SyntaxError
                | OutOfFuel => OutOfFuel
                end
            end
          else if startsWith s (lit "null") then Parsed VNull (skipn 4 s)
          else if startsWith s (lit "true") then
            Parsed (VBool true) (skipn 4 s)
          else if startsWith s (lit "false") then
            Parsed (VBool false) (skipn 5 s)
          else
            match parse_number s with
            | Some (n, r) => Parsed (VNumber n) r
            | None => SyntaxError
            end
      end
  end

(** The elements of a non-empty array, from the first element to the closing
    bracket. *)
with parse_elements (fuel : nat) (s : jstring) {struct fuel}
  : parse_result (list value) :=
  match fuel with
  | O => OutOfFuel
  | S fuel' =>
      match parse_value fuel' s with
      | Parsed v r =>
          match skip_ws r with
          | 44 :: r' =>
              match parse_elements fuel' (skip_ws r') with
              | Parsed vs r'' => Parsed (v :: vs) r''
              | SyntaxError => SyntaxError
              | OutOfFuel => OutOfFuel
              end
          | 93 :: r' => Parsed [v] r'
          | _ => SyntaxError
          end
      | SyntaxError => SyntaxError
      | OutOfFuel => OutOfFuel
      end
  end

(** The members of a non-empty object, from the first key to the closing
    brace. *)
with parse_members (fuel : nat) (s : jstring) {struct fuel}
  : parse_result (list (jstring * value)) :=
  match fuel with
  | O => OutOfFuel
  | S fuel' =>
      match s with
      | 34 :: s' =>
          match parse_chars s' with
          | Some (k, r) =>
              match skip_ws r with
              | 58 :: r1 =>
                  match parse_value fuel' (skip_ws r1) with
                  | Parsed v r2 =>
                      match skip_ws r2 with
                      | 44 :: r3 =>
                          match parse_members fuel' (skip_ws r3) with
                          | Parsed ms r4 => Parsed ((k, v) :: ms) r4
                          | SyntaxError => SyntaxError
                          | OutOfFuel => OutOfFuel
                          end
                      | 125 :: r3 => Parsed [(k, v)] r3
                      | _ => SyntaxError
                      end
                  | SyntaxError => SyntaxError
                  | OutOfFuel => OutOfFuel
                  end
              | _ => SyntaxError
              end
          | None => SyntaxError
          end
      | _ => SyntaxError
      end
  end.

(** The fuel is more than the parser can use on [s]
    (see [parse_value_fuel]). *)
Definition parse_fuel (s : jstring) : nat := 2 * length s + 2.

(** [JSON.parse(text)]: [None] when it throws a SyntaxError. *)
Definition JSON_parse (text : jstring) : option value :=
  let s := skip_ws text in
  match parse_value (parse_fuel s) s with
  | Parsed v r =>
      match skip_ws r with
      | [] => Some v
      | _ :: _ => None
      end
  | SyntaxError | OutOfFuel => None
  end.

(** ** Responses and their body streams *)

(** What is thrown is identified by a description. *)
Definition reason := jstring.

(** One settled [reader.read()]: [{done: false, value}], [{done: true}], or a
    rejection. *)
Inductive read_result :=
| Value (value : list byte)
| Done
| Rejected (e : reason).

(** A body stream is the script of what its reader will deliver; past the end
    of the script the stream is closed. *)
Record ReadableStream := mk_stream {
  locked : bool;
  reads : list read_result
}.

Record Response := mk_response {
  status : Z;
  statusText : jstring;
  headers : list (jstring * jstring);
  body : option ReadableStream
}.

(** ** [src/streaming.ts] *)

Record StreamChunk := mk_chunk {
  content : value;
  done : bool
}.

(** [{ content: "", done: true }] *)
Definition terminal : StreamChunk := mk_chunk (VString []) true.

Inductive completion :=
| Normal
| Throw (e : reason).

(** The part of the generator body inside [try { ... } finally { ... }], as
    the tree of its suspension points. [Yield c on_next on_throw] is the
    generator suspended at a [yield c]: [on_next] is how it goes on when
    resumed by [next()]; [on_throw] is how it goes on when resumed by
    [throw(e)] and the [yield] stands inside the inner [try { } catch { }],
    which swallows [e]. [Leave c] is control leaving the [try] block with
    completion [c], by [return], by falling off its end or by an exception. *)
Inductive Gen :=
| Yield (c : StreamChunk) (on_next : Gen) (on_throw : option Gen)
| Leave (c : completion).

(** [parsed?.choices?.[0]] *)
Definition choice0 (parsed : value) : value :=
  opt_get0 (opt_get parsed (lit "choices")).

(** [for (const line of lines) { ... }], followed by [k]. *)
Fixpoint for_lines (lines : list jstring) (k : Gen) : Gen :=
  match lines with
  | [] => k
  | line :: rest =>
      let trimmed := trim line in
      if jstring_eqb trimmed [] then for_lines rest k
      else if startsWith trimmed (lit "data: ") then
        let data := slice 6 trimmed in
        if jstring_eqb data (lit "[DONE]") then
          Yield terminal (Leave Normal) None
        else
          match JSON_parse data with
          | Some parsed =>
              let delta := opt_get (choice0 parsed) (lit "delta") in
              let finish :=
                if truthy (opt_get (choice0 parsed) (lit "finish_reason"))
                then Yield terminal (Leave Normal) (Some (for_lines rest k))
                else for_lines rest k in
              if truthy (opt_get delta (lit "content"))
              then Yield (mk_chunk (get delta (lit "content")) false)
                         finish (Some (for_lines rest k))
              else finish
          | None => for_lines rest k
          end
      else for_lines rest k
  end.

(** "Process any remaining buffer" *)
Definition remaining_buffer (buffer : jstring) : Gen :=
  if startsWith (trim buffer) (lit "data: ") then
    let data := slice 6 (trim buffer) in
    if jstring_eqb data (lit "[DONE]") then Yield terminal (Leave Normal) None
    else Leave Normal
  else Leave Normal.

(** [while (true) { ... }] over what the reader delivers, then the remaining
    buffer. *)
Fixpoint read_loop (rs : list read_result) (decoder : TextDecoder)
    (buffer : jstring) : Gen :=
  match rs with
  | [] | Done :: _ => remaining_buffer buffer
  | Rejected e :: _ => Leave (Throw e)
  | Value value :: rs' =>
      let '(decoder', text) := decode decoder value in
      let buffer := buffer ++ text in
      let lines := split_lf buffer in
      let buffer := last lines [] in
      let lines := removelast lines in
      for_lines lines (read_loop rs' decoder' buffer)
  end.

(** *** The generator object *)

Inductive gen_state :=
| SuspendedStart (response : Response)
| SuspendedYield (on_next : Gen) (on_throw : option Gen)
| Completed.

(** The generator with the two calls it makes on the stream counted:
    [body.getReader()] and [reader.releaseLock()]. *)
Record generator := mk_generator {
  state : gen_state;
  acquired : nat;
  released : nat
}.

(** [parseSSEStream(response)]: calling the function only creates the
    generator. *)
Definition parseSSEStream (response : Response) : generator :=
  mk_generator (SuspendedStart response) 0 0.

Inductive request :=
| Next
| Return
| ThrowInto (e : reason).

Inductive iter_result :=
| IterValue (c : StreamChunk)
| IterDone
| IterThrow (e : reason).

Definition settle (c : completion) : iter_result :=
  match c with
  | Normal => IterDone
  | Throw e => IterThrow e
  end.

(** Running the [try] block up to its next suspension point; when control
    leaves it, [finally { reader.releaseLock() }] runs. *)
Definition run (g : Gen) (acq rel : nat) : iter_result * generator :=
  match g with
  | Yield c on_next on_throw =>
      (IterValue c, mk_generator (SuspendedYield on_next on_throw) acq rel)
  | Leave c => (settle c, mk_generator Completed acq (S rel))
  end.

(** [getReader] on a locked stream *)
Definition TypeError_locked : reason := lit "TypeError: locked".

(** One [next()], [return()] or [throw(e)] on the generator. *)
Definition resume (g : generator) (r : request) : iter_result * generator :=
  let acq := acquired g in
  let rel := released g in
  match state g with
  | SuspendedStart response =>
      match r with
      | Next =>
          match body response with
          | None => (IterDone, mk_generator Completed acq rel)
          | Some stream =>
              if locked stream
              then (IterThrow TypeError_locked, mk_generator Completed acq rel)
              else run (read_loop (reads stream) new_TextDecoder [])
                       (S acq) rel
          end
      | Return => (IterDone, mk_generator Completed acq rel)
      | ThrowInto e => (IterThrow e, mk_generator Completed acq rel)
      end
  | SuspendedYield on_next on_throw =>
      match r with
      | Next => run on_next acq rel
      | Return => run (Leave Normal) acq rel
      | ThrowInto e =>
          match on_throw with
          | Some g' => run g' acq rel
          | None => run (Leave (Throw e)) acq rel
          end
      end
  | Completed =>
      match r with
      | Next | Return => (IterDone, g)
      | ThrowInto e => (IterThrow e, g)
      end
  end.

(** A consumer issuing the requests [rs] one after the other. *)
Fixpoint drive (g : generator) (rs : list request)
  : list iter_result * generator :=
  match rs with
  | [] => ([], g)
  | r :: rs' =>
      let '(res, g1) := resume g r in
      let '(ress, g2) := drive g1 rs' in
      (res :: ress, g2)
  end.

(** [for await (const chunk of g)] run to the end, with at most [fuel]
    iterations: the chunks received, how the loop ended if it did, and the
    generator afterwards. *)
Fixpoint for_await (fuel : nat) (g : generator)
  : list StreamChunk * option completion * generator :=
  match fuel with
  | O => ([], None, g)
  | S fuel' =>
      match resume g Next with
      | (IterValue c, g1) =>
          let '(cs, r, g2) := for_await fuel' g1 in (c :: cs, r, g2)
      | (IterDone, g1) => ([], Some Normal, g1)
      | (IterThrow e, g1) => ([], Some (Throw e), g1)
      end
  end.

(** The same without fuel, on the tree: what a consumer that only calls
    [next()] receives from the [try] block. *)
Fixpoint collect (g : Gen) : list StreamChunk * completion :=
  match g with
  | Yield c on_next _ => let '(cs, r) := collect on_next in (c :: cs, r)
  | Leave c => ([], c)
  end.

(** The chunk sequence [parseSSEStream(response)] produces and the way it
    ends ([for_await_consume] relates it to [for_await]). *)
Definition consume (response : Response) : list StreamChunk * completion :=
  match body response with
  | None => ([], Normal)
  | Some stream =>
      if locked stream then ([], Throw TypeError_locked)
      else collect (read_loop (reads stream) new_TextDecoder [])
  end.

Definition chunks (response : Response) : list StreamChunk :=
  fst (consume response).

(** A successful streaming response whose body arrives in the given
    read-chunks and then ends. *)
Definition sse_response (segments : list (list byte)) : Response :=
  mk_response 200 (lit "OK") []
    (Some (mk_stream false (map Value segments))).

(** ** Conversion to a string

    [super(message)] in the constructor of [ByokError] runs the constructor
    of [Error], which stores [ToString(message)]. The message comes from the
    body of the response, so it can be any value [JSON.parse] produces. *)

(** *** [Number::toString]

    A number is written with the fewest digits that read back as the same
    double. *)

(** A double that is neither NaN nor negative: zero, [f * 2^p] with
    [2^52 <= f < 2^53] and [-1074 <= p <= 971] (or [0 < f < 2^52] and
    [p = -1074], a subnormal), or infinity. *)
Inductive double :=
| DZero
| DFinite (f p : Z)
| DInfinity.

(** A positive rational is a pair of positive integers. [scale2 q k] is
    [q / 2^k], [decimal c t] is [c * 10^t]. *)
Definition scale2 (q : Z * Z) (k : Z) : Z * Z :=
  let '(n, d) := q in
  if 0 <=? k then (n, d * 2 ^ k) else (n * 2 ^ (- k), d).

Definition decimal (c t : Z) : Z * Z :=
  if 0 <=? t then (c * 10 ^ t, 1) else (c, 10 ^ (- t)).

Definition q_leb (a b : Z * Z) : bool := fst a * snd b <=? fst b * snd a.
Definition q_ltb (a b : Z * Z) : bool := fst a * snd b <? fst b * snd a.
Definition q_div (a b : Z * Z) : Z * Z := (fst a * snd b, snd a * fst b).

(** The integer nearest to a rational, the even one of two. *)
Definition round_half_even (q : Z * Z) : Z :=
  let '(n, d) := q in
  let c := n / d in
  let r := n mod d in
  if 2 * r <? d then c
  else if d <? 2 * r then c + 1
  else if Z.even c then c else c + 1.

(** The [l] with [2^l <= q < 2^(l+1)]. *)
Definition floor_log2 (q : Z * Z) : Z :=
  let g := Z.log2 (fst q) - Z.log2 (snd q) in
  if q_leb (1, 1) (scale2 q g) then g else g - 1.

(** The double nearest to a positive rational, ties to even. *)
Definition nearest_double (q : Z * Z) : double :=
  let p := Z.max (floor_log2 q - 52) (-1074) in
  let f := round_half_even (scale2 q p) in
  if f =? 0 then DZero
  else
    let '(f, p) := if f =? 2 ^ 53 then (2 ^ 52, p + 1) else (f, p) in
    if 971 <? p then DInfinity else DFinite f p.

(** The least [n], from [n] on, with [v < 10^n]. *)
Fixpoint magnitude (tries : nat) (v : Z * Z) (n : Z) : Z :=
  match tries with
  | O => n
  | S tries' =>
      if q_ltb v (decimal 1 n) then n else magnitude tries' v (n + 1)
  end.

(** Whether [c * 10^t] reads back as the double [f * 2^p]: it lies between
    the midpoints to the neighbouring doubles, the midpoints included when
    [f] is even. In units of [2^(p-2)] the double is [4f], the upper
    midpoint [4f + 2], the lower one [4f - 2], or [4f - 1] at a power of two
    (below it the doubles are twice as dense). *)
Definition reads_back (f p c t : Z) : bool :=
  let below := if (f =? 2 ^ 52) && (-1074 <? p) then 1 else 2 in
  let lo := scale2 (4 * f - below, 1) (2 - p) in
  let hi := scale2 (4 * f + 2, 1) (2 - p) in
  let x := decimal c t in
  if Z.even f then q_leb lo x && q_leb x hi
  else q_ltb lo x && q_ltb x hi.

(** The [c] for which [c * 10^(n-k)] reads back as the double and is nearest
    to it, if there is one: one of the two multiples of [10^(n-k)] around
    the double. *)
Definition digits_at (f p n k : Z) : option Z :=
  let t := n - k in
  let w := q_div (scale2 (f, 1) (- p)) (decimal 1 t) in
  let c0 := fst w / snd w in
  let nearer :=
    if q_ltb (2 * fst w, snd w) (2 * c0 + 1, 1) then c0
    else if q_ltb (2 * c0 + 1, 1) (2 * fst w, snd w) then c0 + 1
    else if Z.even c0 then c0 else c0 + 1 in
  match reads_back f p c0 t, reads_back f p (c0 + 1) t with
  | true, true => Some nearer
  | true, false => Some c0
  | false, true => Some (c0 + 1)
  | false, false => None
  end.

(** The least number of digits [k], from [k] on, for which there is such a
    [c], with that [c]. Seventeen digits always read back. *)
Fixpoint shortest (tries : nat) (f p n k : Z) : Z * Z :=
  match tries with
  | O => (round_half_even (q_div (scale2 (f, 1) (- p)) (decimal 1 (n - k))), k)
  | S tries' =>
      match digits_at f p n k with
      | Some c => (c, k)
      | None => shortest tries' f p n (k + 1)
      end
  end.

Definition decimal_digits (n : Z) : jstring :=
  lit (DecimalString.NilZero.string_of_int (Z.to_int n)).

Definition zeros (n : Z) : jstring := repeat 48 (Z.to_nat n).

(** The text for the [k] digits [ds] and the exponent [n], the value being
    [0.ds * 10^n]: plain up to 21 integer digits and down to six zeros after
    the point, with an exponent otherwise. *)
Definition number_layout (ds : jstring) (k n : Z) : jstring :=
  if (k <=? n) && (n <=? 21) then ds ++ zeros (n - k)
  else if (0 <? n) && (n <=? 21) then
    firstn (Z.to_nat n) ds ++ [46] ++ skipn (Z.to_nat n) ds
  else if (-6 <? n) && (n <=? 0) then [48; 46] ++ zeros (- n) ++ ds
  else
    let e := n - 1 in
    let exponent :=
      [101] ++ [if e <? 0 then 45 else 43] ++ decimal_digits (Z.abs e) in
    if k =? 1 then ds ++ exponent
    else firstn 1 ds ++ [46] ++ skipn 1 ds ++ exponent.

(** The text of the positive double [f * 2^p]. A double just below a power
    of ten may be written as that power. *)
Definition double_string (f p : Z) : jstring :=
  let n := magnitude 700 (scale2 (f, 1) (- p)) (-324) in
  let '(c, k) := shortest 16 f p n 1 in
  if c =? 10 ^ k then number_layout (decimal_digits (10 ^ (k - 1))) k (n + 1)
  else number_layout (decimal_digits c) k n.

(** [Number::toString(n)] in radix 10 *)
Definition Number_toString (n : number) : jstring :=
  match n with
  | NaN => lit "NaN"
  | Dec neg m e =>
      if m <=? 0 then lit "0"
      else
        match nearest_double (decimal m e) with
        | DZero => lit "0"
        | DInfinity => if neg then lit "-Infinity" else lit "Infinity"
        | DFinite f p => (if neg then [45] else []) ++ double_string f p
        end
  end.

(** *** [ToString]

    [None] is a TypeError. An array is converted by [Array.prototype.join]:
    its elements converted and separated by commas, null and undefined
    giving the empty string. An object is converted by the first of its
    [toString] and [valueOf] that is callable and returns a primitive. A
    member read by [JSON.parse] is never callable, so an object with an own
    [toString] is left with [valueOf], its own or the one of
    [Object.prototype], which returns the object: a TypeError. Any other
    object gets [[object Object]] from [Object.prototype.toString]. *)
Fixpoint ToString (v : value) : option jstring :=
  match v with
  | VUndefined => Some (lit "undefined")
  | VNull => Some (lit "null")
  | VBool b => Some (if b then lit "true" else lit "false")
  | VNumber n => Some (Number_toString n)
  | VString s => Some s
  | VArray elements =>
      (fix join (l : list value) : option jstring :=
         match l with
         | [] => Some []
         | x :: rest =>
             match (if nullish x then Some [] else ToString x) with
             | None => None
             | Some first =>
                 match rest with
                 | [] => Some first
                 | _ :: _ =>
                     match join rest with
                     | Some others => Some (first ++ [44] ++ others)
                     | None => None
                     end
                 end
             end
         end) elements
  | VObject members =>
      match own_property (lit "toString") members with
      | Some _ => None
      | None => Some (lit "[object Object]")
      end
  end.

(** ** [src/errors.ts] *)

(** An instance of [ByokError] or of one of its subclasses. [name] tells the
    class. [message] is the string the constructor of [Error] stores.
    [retryAfter] is undefined on every class but [RateLimitError]. *)
Record ByokError := mk_error {
  name : jstring;
  message : value;
  err_status : Z;
  code : value;
  type : value;
  details : value;
  retryAfter : value
}.

(** The message of [new Error(message)]: the argument converted to a
    string; [None] when the conversion throws a TypeError. Without an
    argument the error has no message of its own and shows the empty one of
    [Error.prototype]. *)
Definition Error_message (message : value) : option value :=
  match message with
  | VUndefined => Some (VString [])
  | _ => option_map VString (ToString message)
  end.

(** [new ByokError(message, status, { code, type, details })]; [None] when
    [super(message)] throws. *)
Definition new_ByokError (message : value) (status : Z)
    (code type details : value) : option ByokError :=
  option_map
    (fun m => mk_error (lit "ByokError") m status code type details VUndefined)
    (Error_message message).

Definition with_name (n : string) (e : ByokError) : ByokError :=
  mk_error (lit n) (message e) (err_status e) (code e) (type e) (details e)
    (retryAfter e).

Definition with_retryAfter (retry : value) (e : ByokError) : ByokError :=
  mk_error (name e) (message e) (err_status e) (code e) (type e) (details e)
    retry.

(** The subclasses pass their own status to [super] and then set their
    name; those given [{ code, type }] leave [details] undefined. *)
Definition new_AuthenticationError (message code type : value)
  : option ByokError :=
  option_map (with_name "AuthenticationError")
    (new_ByokError message 401 code type VUndefined).

Definition new_PaymentRequiredError (message code type : value)
  : option ByokError :=
  option_map (with_name "PaymentRequiredError")
    (new_ByokError message 402 code type VUndefined).

Definition new_ForbiddenError (message code type : value)
  : option ByokError :=
  option_map (with_name "ForbiddenError")
    (new_ByokError message 403 code type VUndefined).

Definition new_NotFoundError (message code type : value)
  : option ByokError :=
  option_map (with_name "NotFoundError")
    (new_ByokError message 404 code type VUndefined).

Definition new_ValidationError (message code type details : value)
  : option ByokError :=
  option_map (with_name "ValidationError")
    (new_ByokError message 422 code type details).

(** [RateLimitError] also keeps [opts?.retryAfter]. *)
Definition new_RateLimitError (message code type retry : value)
  : option ByokError :=
  option_map (fun e => with_retryAfter retry (with_name "RateLimitError" e))
    (new_ByokError message 429 code type VUndefined).

Definition new_ProviderError (message code type : value)
  : option ByokError :=
  option_map (with_name "ProviderError")
    (new_ByokError message 502 code type VUndefined).

(** How a call ends: it returns, it throws a [ByokError], or it throws the
    TypeError of a message that cannot be converted. *)
Inductive outcome :=
| Returns (v : value)
| Throws (e : ByokError)
| ThrowsTypeError.

(** [throw new C(...)] *)
Definition throw_new (constructed : option ByokError) : outcome :=
  match constructed with
  | Some e => Throws e
  | None => ThrowsTypeError
  end.

(** The bytes of a body read to its end; [None] when a read is rejected. *)
Fixpoint read_all (rs : list read_result) : option (list byte) :=
  match rs with
  | [] | Done :: _ => Some []
  | Rejected _ :: _ => None
  | Value v :: rs' =>
      match read_all rs' with
      | Some bs => Some (v ++ bs)
      | None => None
      end
  end.

(** UTF-8 decode of a whole byte sequence: as [decode], and a sequence cut
    short at the end gives one more U+FFFD. *)
Definition utf8_decode (bs : list byte) : jstring :=
  let '(d, s) := decode new_TextDecoder bs in
  if Utf8.bytes_needed (utf8 d) =? 0 then s else s ++ [65533].

(** [await response.json()]: [None] when the promise rejects (the body cannot
    be read, or is not JSON text). *)
Definition Response_json (response : Response) : option value :=
  match body response with
  | None => JSON_parse []
  | Some stream =>
      if locked stream then None
      else
        match read_all (reads stream) with
        | Some bs => JSON_parse (utf8_decode bs)
        | None => None
        end
  end.

Definition ascii_lowercase (c : Z) : Z :=
  if (65 <=? c) && (c <=? 90) then c + 32 else c.

Definition header_name_eqb (a b : jstring) : bool :=
  jstring_eqb (map ascii_lowercase a) (map ascii_lowercase b).

Fixpoint join_values (vs : list jstring) : jstring :=
  match vs with
  | [] => []
  | [v] => v
  | v :: rest => v ++ lit ", " ++ join_values rest
  end.

(** [headers.get(name)]: the values of the headers of that name, whatever
    its case, joined by a comma and a space; [None] is null. *)
Definition Headers_get (hs : list (jstring * jstring)) (name : jstring)
  : option jstring :=
  match filter (fun h => header_name_eqb (fst h) name) hs with
  | [] => None
  | matching => Some (join_values (map snd matching))
  end.

(** [parseInt(s, 10)]: leading white space is skipped, then a sign, then the
    longest run of decimal digits is read; without a digit the result is
    NaN. *)
Definition parseInt10 (s : jstring) : number :=
  let '(neg, s2) := strip_sign (trimStart s) in
  match fst (take_digits s2) with
  | [] => NaN
  | ds => Dec neg (digits_value ds) 0
  end.

(** A status number in a template literal. *)
Definition status_string (n : Z) : jstring :=
  lit (DecimalString.NilZero.string_of_int (Z.to_int n)).

(** The message [throwForStatus] starts from. *)
Definition default_message (status : Z) : jstring :=
  lit "BYOK API error (" ++ status_string status ++ lit ")".

Definition is_string (v : value) : bool :=
  match v with
  | VString _ => true
  | _ => false
  end.

(** [a ?? b] *)
Definition coalesce (a b : value) : value := if nullish a then b else a.

(** The four locals after the [try { ... } catch { ... }]. *)
Definition read_envelope (response : Response)
  : value * value * value * value :=
  let message := VString (default_message (status response)) in
  match Response_json response with
  | Some body =>
      if truthy (opt_get body (lit "error")) then
        let err :=
          if is_string (get body (lit "error"))
          then VObject [(lit "message", get body (lit "error"))]
          else get body (lit "error") in
        (coalesce (get err (lit "message")) message,
         get err (lit "code"), get err (lit "type"), get err (lit "details"))
      else (message, VUndefined, VUndefined, VUndefined)
  | None =>
      ((if truthy (VString (statusText response))
        then VString (statusText response) else message),
       VUndefined, VUndefined, VUndefined)
  end.

(** [retryAfter ? parseInt(retryAfter, 10) : undefined] *)
Definition retry_hint (retryAfter : option jstring) : value :=
  match retryAfter with
  | Some s => if truthy (VString s) then VNumber (parseInt10 s) else VUndefined
  | None => VUndefined
  end.

Definition throwForStatus (response : Response) : outcome :=
  let '(message, code, type, details) := read_envelope response in
  let retryAfter := Headers_get (headers response) (lit "retry-after") in
  let st := status response in
  if st =? 401 then throw_new (new_AuthenticationError message code type)
  else if st =? 402 then throw_new (new_PaymentRequiredError message code type)
  else if st =? 403 then throw_new (new_ForbiddenError message code type)
  else if st =? 404 then throw_new (new_NotFoundError message code type)
  else if st =? 422 then
    throw_new (new_ValidationError message code type details)
  else if st =? 429 then
    throw_new (new_RateLimitError message code type (retry_hint retryAfter))
  else if st =? 502 then throw_new (new_ProviderError message code type)
  else throw_new (new_ByokError message st code type details).

(** The [message] local after the [try { ... } catch { ... }], which the
    constructors are handed. *)
Definition envelope_message (response : Response) : value :=
  fst (fst (fst (read_envelope response))).

(** An error response with one body chunk. *)
Definition error_response (status : Z) (statusText : string)
    (headers : list (jstring * jstring)) (body : list byte) : Response :=
  mk_response status (lit statusText) headers
    (Some (mk_stream false [Value body])).

(** ** The decoder seen from the whole text

    The following definitions describe a stream by the text its bytes decode
    to; [read_loop_text] shows that [read_loop] computes exactly this, however
    the bytes are cut into reads. *)

(** What the [TextDecoder] has put out when the reads are exhausted. *)
Definition stream_text (segments : list (list byte)) : jstring :=
  snd (decode new_TextDecoder (concat segments)).

(** The complete lines of a text, then what follows its last line feed. *)
Definition text_gen (text : jstring) : Gen :=
  for_lines (removelast (split_lf text))
    (remaining_buffer (last (split_lf text) [])).

Definition text_chunks (text : jstring) : list StreamChunk :=
  fst (collect (text_gen text)).

(** Nothing follows the last line feed of [a]: [a] is empty or ends with a
    line feed. *)
Definition line_aligned (a : jstring) : Prop := last (split_lf a) [] = [].

(** No line feed in [l]. *)
Definition one_line (l : jstring) : bool :=
  forallb (fun c => negb (c =? 10)) l.

(** The payload of a line, when it is a data line. *)
Definition data_of (line : jstring) : option jstring :=
  if startsWith (trim line) (lit "data: ")
  then Some (slice 6 (trim line)) else None.

(** No chunk of [cs] has [done] set. *)
Definition none_done (cs : list StreamChunk) : bool :=
  forallb (fun c => negb (done c)) cs.

(** Along the [next()] path of a tree, a chunk either has [done] unset and a
    truthy content, or it is the terminal chunk and the generator returns
    when resumed. *)
Inductive well_terminated : Gen -> Prop :=
| wt_leave c : well_terminated (Leave c)
| wt_content c n t :
    done c = false -> truthy (content c) = true -> well_terminated n ->
    well_terminated (Yield c n t)
| wt_terminal t : well_terminated (Yield terminal (Leave Normal) t).

(** The chunks with [done] unset, as the decoder emits them: their content is
    truthy, so a content that is a string is not empty. *)
Definition content_chunk (c : StreamChunk) : Prop :=
  done c = false /\ truthy (content c) = true /\
  forall s, content c = VString s -> s <> [].

(** The kind the documentation gives for a status (the table of the error
    classes). *)
Definition documented_kind (status : Z) : jstring :=
  if status =? 401 then lit "AuthenticationError"
  else if status =? 402 then lit "PaymentRequiredError"
  else if status =? 403 then lit "ForbiddenError"
  else if status =? 404 then lit "NotFoundError"
  else if status =? 422 then lit "ValidationError"
  else if status =? 429 then lit "RateLimitError"
  else if status =? 502 then lit "ProviderError"
  else lit "ByokError".

(** ** Example streams and responses *)

Definition lf : list byte := [x0a].

(** One frame with a two-byte character in its content, then the sentinel
    frame. *)
Definition cafe_stream : list byte :=
  bytesq "data: {'choices':[{'delta':{'content':'caf" ++ [xc3; xa9]
  ++ bytesq "'}}]}" ++ lf ++ lf ++ bytesq "data: [DONE]" ++ lf ++ lf.

(** The same bytes cut inside a line, inside the two-byte character and
    inside the sentinel. *)
Definition cafe_pieces : list (list byte) :=
  [ bytesq "data: {'choices':[{'del";
    bytesq "ta':{'content':'caf" ++ [xc3];
    [xa9] ++ bytesq "'}}]}" ++ lf;
    lf ++ bytesq "data: [DO";
    bytesq "NE]" ++ lf ++ lf ].

(** A frame whose content is a number. *)
Definition number_stream : list byte :=
  bytesq "data: {'choices':[{'delta':{'content':1}}]}" ++ lf.

(** A frame with content and a finish reason, then the sentinel frame. *)
Definition finish_frame : string :=
  "data: {'choices':[{'delta':{'content':'Hi'},'finish_reason':'stop'}]}".

Definition finish_then_done : list byte :=
  bytesq finish_frame ++ lf ++ lf ++ bytesq "data: [DONE]" ++ lf ++ lf.

Definition finish_only : list byte := bytesq finish_frame ++ lf.

Definition content_frame : string :=
  "data: {'choices':[{'delta':{'content':'a'}}]}".

(** A content frame, a data line that is not JSON text, the sentinel. *)
Definition noisy_stream : list byte :=
  bytesq content_frame ++ lf
  ++ bytesq "data: {oops" ++ lf ++ bytesq "data: [DONE]" ++ lf.

Definition quiet_stream : list byte :=
  bytesq content_frame ++ lf ++ bytesq "data: [DONE]" ++ lf.

(** A stream whose second read is rejected. *)
Definition failing_response : Response :=
  mk_response 200 (lit "OK") []
    (Some (mk_stream false
             [Value (bytesq content_frame ++ lf);
              Rejected (lit "network error");
              Value (bytesq "data: [DONE]" ++ lf)])).

(** What holds of the two counters in each state of the generator: nothing is
    acquired before the first [next()]; while the generator is suspended at a
    [yield] the reader is held; once it has completed the reader, if it was
    acquired, has been released, once. *)
Definition reader_discipline (g : generator) : Prop :=
  match state g with
  | SuspendedStart _ => acquired g = 0%nat /\ released g = 0%nat
  | SuspendedYield _ _ => acquired g = 1%nat /\ released g = 0%nat
  | Completed => released g = acquired g /\ (acquired g <= 1)%nat
  end.

(** Once started, the generator does not start again and acquires no other
    reader. *)
Definition started (g : generator) : Prop :=
  match state g with
  | SuspendedStart _ => False
  | _ => True
  end.

(** Whether the error class built for a status is given [details]:
    [ValidationError] and the base class are. *)
Definition carries_details (status : Z) : bool :=
  (status =? 422)
  || negb ((status =? 401) || (status =? 402) || (status =? 403)
           || (status =? 404) || (status =? 429) || (status =? 502)).

(** A rate-limited response whose [retry-after] header is a date. *)
Definition retry_at_date : Response :=
  error_response 429 "Too Many Requests"
    [(lit "Retry-After", lit "Wed, 21 Oct 2015 07:28:00 GMT")]
    (bytesq "{'error':{'message':'slow down','code':'quota'}}").

(** The scenario of the specification. *)
Definition retry_in_30 : Response :=
  error_response 429 "Too Many Requests" [(lit "Retry-After", lit "30")]
    (bytesq "{'error':{'message':'slow down','code':'quota'}}").

(** An error envelope whose [error] is the empty string. *)
Definition empty_error : Response :=
  error_response 500 "Internal Server Error" [] (bytesq "{'error':''}").

Definition string_error : Response :=
  error_response 404 "Not Found" [] (bytesq "{'error':'no such player'}").

(** An error envelope whose message is a number. *)
Definition number_message : Response :=
  error_response 500 "Internal Server Error" []
    (bytesq "{'error':{'message':42}}").

(** An error envelope whose message is an object with a member named
    [toString]. *)
Definition unconvertible_message : Response :=
  error_response 401 "Unauthorized" []
    (bytesq "{'error':{'message':{'toString':0}}}").

(** ** The client and the endpoint wrappers

    [client.ts] and the wrappers of [state.ts], [wallet.ts], [chat.ts],
    [events.ts] and [players.ts], as far as they compute: the options the
    client hands to its namespaces, the tail every wrapper ends with, the
    path segment built by [encodeURIComponent], the body [register]
    builds. *)

Definition DEFAULT_BASE_URL : jstring := lit "https://byok.gg".

(** [s.replace(/\/+$/, "")]: the match starts at the first position from
    which only slashes follow, so the whole trailing run of slashes goes. *)
Definition strip_trailing_slashes (s : jstring) : jstring :=
  rev (drop_while (fun c => c =? 47) (rev s)).

(** [ByokClientConfig] without its [fetch]; [None] is an option left out. *)
Record ByokClientConfig := mk_config {
  cfg_apiKey : jstring;
  cfg_baseUrl : option jstring;
  cfg_defaultUserId : option jstring
}.

(** The [shared] options of the constructor, without [fetch]. *)
Record APIOptions := mk_options {
  baseUrl : jstring;
  apiKey : jstring;
  defaultUserId : option jstring
}.

Definition ByokClient_shared (config : ByokClientConfig) : APIOptions :=
  let baseUrl :=
    strip_trailing_slashes
      match cfg_baseUrl config with
      | Some u => u
      | None => DEFAULT_BASE_URL
      end in
  mk_options baseUrl (cfg_apiKey config) (cfg_defaultUserId config).

(** [response.ok] *)
Definition Response_ok (response : Response) : bool :=
  (200 <=? status response) && (status response <=? 299).

(** How the promise of a wrapper settles: resolved, rejected with a
    [ByokError], or rejected with another error (what [response.json()]
    rejects with, or the TypeError out of [throwForStatus]). *)
Inductive settled :=
| Resolved (v : value)
| RejectedByok (e : ByokError)
| RejectedOther.

(** [if (!response.ok) await throwForStatus(response);
     return await response.json();] *)
Definition handle_response (response : Response) : settled :=
  let parsed :=
    match Response_json response with
    | Some v => Resolved v
    | None => RejectedOther
    end in
  if negb (Response_ok response) then
    match throwForStatus response with
    | Throws e => RejectedByok e
    | ThrowsTypeError => RejectedOther
    | Returns _ => parsed
    end
  else parsed.

(** The URL of [state.get] and [state.update]: [`${baseUrl}/api/v1/state`]. *)
Definition state_url (opts : APIOptions) : jstring :=
  baseUrl opts ++ lit "/api/v1/state".

(** *** [encodeURIComponent] *)

(** The characters left as they are: letters, digits and [-_.!~*'()]. *)
Definition is_unreserved (c : Z) : bool :=
  ((65 <=? c) && (c <=? 90)) || ((97 <=? c) && (c <=? 122))
  || ((48 <=? c) && (c <=? 57))
  || (c =? 45) || (c =? 95) || (c =? 46) || (c =? 33) || (c =? 126)
  || (c =? 42) || (c =? 39) || (c =? 40) || (c =? 41).

(** The UTF-8 octets of a code point. *)
Definition utf8_octets (cp : Z) : list Z :=
  if cp <? 128 then [cp]
  else if cp <? 2048 then
    [Z.lor 192 (Z.shiftr cp 6); Z.lor 128 (Z.land cp 63)]
  else if cp <? 65536 then
    [Z.lor 224 (Z.shiftr cp 12);
     Z.lor 128 (Z.land (Z.shiftr cp 6) 63);
     Z.lor 128 (Z.land cp 63)]
  else
    [Z.lor 240 (Z.shiftr cp 18);
     Z.lor 128 (Z.land (Z.shiftr cp 12) 63);
     Z.lor 128 (Z.land (Z.shiftr cp 6) 63);
     Z.lor 128 (Z.land cp 63)].

Definition hex_digit (n : Z) : Z := if n <? 10 then 48 + n else 55 + n.

(** An octet as a percent sign and two upper-case hexadecimal digits. *)
Definition percent (octet : Z) : jstring :=
  [37; hex_digit (Z.shiftr octet 4); hex_digit (Z.land octet 15)].

Definition is_high_surrogate (c : Z) : bool := (55296 <=? c) && (c <=? 56319).
Definition is_low_surrogate (c : Z) : bool := (56320 <=? c) && (c <=? 57343).

(** [encodeURIComponent(s)]; [None] is the URIError thrown at a surrogate
    without its pair. *)
Fixpoint encodeURIComponent (s : jstring) : option jstring :=
  match s with
  | [] => Some []
  | c :: rest =>
      if is_unreserved c then option_map (cons c) (encodeURIComponent rest)
      else if is_high_surrogate c then
        match rest with
        | lo :: rest' =>
            if is_low_surrogate lo then
              let cp := (c - 55296) * 1024 + (lo - 56320) + 65536 in
              option_map (app (flat_map percent (utf8_octets cp)))
                (encodeURIComponent rest')
            else None
        | [] => None
        end
      else if is_low_surrogate c then None
      else
        option_map (app (flat_map percent (utf8_octets c)))
          (encodeURIComponent rest)
  end.

(** The URL of [events.ack]:
    [`${baseUrl}/api/v1/events/${encodeURIComponent(eventId)}/ack`]. *)
Definition ack_url (opts : APIOptions) (eventId : jstring) : option jstring :=
  option_map
    (fun id => baseUrl opts ++ lit "/api/v1/events/" ++ id ++ lit "/ack")
    (encodeURIComponent eventId).

(** What [encodeURIComponent] writes: a character it leaves alone, a percent
    sign, or an upper-case hexadecimal digit. *)
Definition is_uri_safe (c : Z) : bool :=
  is_unreserved c || (c =? 37)
  || ((48 <=? c) && (c <=? 57)) || ((65 <=? c) && (c <=? 70)).

(** A UTF-16 code unit. *)
Definition is_code_unit (c : Z) : bool := (0 <=? c) && (c <? 65536).

(** The octets of [utf8_octets] written with quotients and remainders
    ([utf8_octets_arith_eq]). *)
Definition utf8_octets_arith (cp : Z) : list Z :=
  if cp <? 128 then [cp]
  else if cp <? 2048 then [192 + cp / 64; 128 + cp mod 64]
  else if cp <? 65536 then
    [224 + cp / 4096; 128 + (cp / 64) mod 64; 128 + cp mod 64]
  else
    [240 + cp / 262144; 128 + (cp / 4096) mod 64;
     128 + (cp / 64) mod 64; 128 + cp mod 64].



(** *** The body of [players.register] *)

(** [key in request], for a request that is a plain object. *)
Definition has_key (key : jstring) (request : list (jstring * value)) : bool :=
  match own_property key request with
  | Some _ => true
  | None => false
  end.

(** The object [register] hands to [JSON.stringify], member by member in
    the order they are assigned. *)
Definition register_body (request : list (jstring * value))
  : list (jstring * value) :=
  let r := VObject request in
  let auth :=
    if has_key (lit "steamId") request then
      [(lit "steam_id", get r (lit "steamId"))]
    else if has_key (lit "deviceId") request then
      [(lit "device_id", get r (lit "deviceId"))]
    else if has_key (lit "externalId") request then
      [(lit "external_id", get r (lit "externalId"));
       (lit "external_provider", get r (lit "externalProvider"))]
    else [] in
  if truthy (get r (lit "displayName"))
  then auth ++ [(lit "display_name", get r (lit "displayName"))]
  else auth.

(** ** More on the decoder *)

(** The chunks of the complete lines of a text, without what follows its
    last line feed. *)
Definition lines_chunks (text : jstring) : list StreamChunk :=
  fst (collect (for_lines (removelast (split_lf text)) (Leave Normal))).

(** A response whose reads are the given segments and then a rejection. *)
Definition broken_response (segments : list (list byte)) (e : reason)
    (rest : list read_result) : Response :=
  mk_response 200 (lit "OK") []
    (Some (mk_stream false (map Value segments ++ Rejected e :: rest))).

(** A character that may stand as it is in a JSON string. *)
Definition is_plain_char (c : Z) : bool :=
  (32 <=? c) && negb (c =? 34) && negb (c =? 92).

(** The wire form of a content frame:
    [data: {"choices":[{"delta":{"content":"<text>"}}]}]. *)
Definition content_line (text : jstring) : jstring :=
  litq "data: {'choices':[{'delta':{'content':'" ++ text ++ litq "'}}]}".

(** The code unit of an ASCII byte is the byte. *)
Definition byte_code (b : byte) : Z := Z.of_N (Byte.to_N b).

Definition is_ascii_byte (b : byte) : bool := byte_code b <? 128.

(** A text with every line feed turned into carriage return, line feed. *)
Definition crlf (text : jstring) : jstring :=
  flat_map (fun c => if c =? 10 then [13; 10] else [c]) text.

(** The UTF-8 byte order mark. *)
Definition utf8_bom : list byte := [xef; xbb; xbf].

(** No result of a request is a chunk. *)
Definition no_value (r : iter_result) : Prop :=
  match r with
  | IterValue _ => False
  | _ => True
  end.

(** ** Proof tools *)

(** Case analysis on a match that yields a parse result. *)
Ltac break_result H :=
  match type of H with
  | match ?x with _ => _ end = _ =>
      let E := fresh "E" in destruct x eqn:E; try discriminate H
  end.

(** The seven statuses of the [switch], then the default. *)
Ltac status_cases st :=
  destruct (st =? 401) eqn:E401;
  [|destruct (st =? 402) eqn:E402;
    [|destruct (st =? 403) eqn:E403;
      [|destruct (st =? 404) eqn:E404;
        [|destruct (st =? 422) eqn:E422;
          [|destruct (st =? 429) eqn:E429;
            [|destruct (st =? 502) eqn:E502]]]]]].

(** ** Lemmas on strings and lines *)

Lemma jstring_eqb_eq (a b : jstring) : jstring_eqb a b = true <-> a = b.
Proof.
  unfold jstring_eqb. destruct (list_eq_dec Z.eq_dec a b); split; congruence.
Qed.

Lemma jstring_eqb_neq (a b : jstring) : jstring_eqb a b = false <-> a <> b.
Proof.
  unfold jstring_eqb. destruct (list_eq_dec Z.eq_dec a b); split; congruence.
Qed.

Lemma split_lf_nonempty (s : jstring) : split_lf s <> [].
Proof.
  destruct s as [|c s]; simpl; [discriminate|].
  destruct (c =? 10); [discriminate|].
  destruct (split_lf s); discriminate.
Qed.

Lemma split_lf_one_line (l : jstring) :
  one_line l = true -> split_lf l = [l].
Proof.
  induction l as [|c l IH]; simpl; [reflexivity|].
  intros H. apply andb_prop in H as [Hc Hl].
  apply negb_true_iff in Hc. rewrite Hc, (IH Hl). reflexivity.
Qed.

(** Splitting a concatenation: the complete lines of [a] stay, and what
    followed its last line feed is the head of the rest. *)
Lemma split_lf_app (a b : jstring) :
  split_lf (a ++ b) =
  removelast (split_lf a) ++ split_lf (last (split_lf a) [] ++ b).
Proof.
  induction a as [|c a IH]; simpl; [reflexivity|].
  destruct (c =? 10) eqn:Hc.
  - rewrite IH. destruct (split_lf a) as [|l ls] eqn:E.
    + now apply split_lf_nonempty in E.
    + reflexivity.
  - rewrite IH. destruct (split_lf a) as [|l ls] eqn:E.
    + now apply split_lf_nonempty in E.
    + destruct ls as [|l' ls'].
      * simpl. rewrite Hc.
        destruct (split_lf (l ++ b)) as [|x xs] eqn:E'.
        -- now apply split_lf_nonempty in E'.
        -- reflexivity.
      * change (removelast ((c :: l) :: l' :: ls'))
          with ((c :: l) :: removelast (l' :: ls')).
        change (removelast (l :: l' :: ls'))
          with (l :: removelast (l' :: ls')).
        change (last ((c :: l) :: l' :: ls') [])
          with (last (l' :: ls') ([] : jstring)).
        change (last (l :: l' :: ls') [])
          with (last (l' :: ls') ([] : jstring)).
        reflexivity.
Qed.

Lemma last_split_lf_one_line (s : jstring) :
  one_line (last (split_lf s) []) = true.
Proof.
  induction s as [|c s IH]; simpl; [reflexivity|].
  destruct (c =? 10) eqn:Hc.
  - destruct (split_lf s) as [|l ls] eqn:E.
    + now apply split_lf_nonempty in E.
    + exact IH.
  - destruct (split_lf s) as [|l ls] eqn:E.
    + now apply split_lf_nonempty in E.
    + destruct ls as [|l' ls'].
      * simpl in *. now rewrite Hc, IH.
      * exact IH.
Qed.

Lemma split_lf_line (l t : jstring) :
  one_line l = true -> split_lf (l ++ 10 :: t) = l :: split_lf t.
Proof.
  induction l as [|c l IH]; simpl; [reflexivity|].
  intros H. apply andb_prop in H as [Hc Hl].
  apply negb_true_iff in Hc. rewrite Hc, (IH Hl). reflexivity.
Qed.

Lemma line_aligned_app (a t : jstring) :
  line_aligned a ->
  split_lf (a ++ t) = removelast (split_lf a) ++ split_lf t.
Proof. intros Ha. rewrite split_lf_app, Ha. reflexivity. Qed.

Lemma removelast_app_nonempty {A} (l l' : list A) :
  l' <> [] -> removelast (l ++ l') = l ++ removelast l'.
Proof. apply removelast_app. Qed.

Lemma last_app_nonempty {A} (l l' : list A) (d : A) :
  l' <> [] -> last (l ++ l') d = last l' d.
Proof.
  intros H. induction l as [|x l IH]; simpl; [reflexivity|].
  destruct (l ++ l') eqn:E; [|exact IH].
  apply app_eq_nil in E as [_ E]. contradiction.
Qed.

(** ** [JSON.parse] never runs out of fuel *)

Lemma drop_while_length (p : Z -> bool) (s : jstring) :
  (length (drop_while p s) <= length s)%nat.
Proof.
  induction s as [|c s IH]; cbn [drop_while length]; [lia|].
  destruct (p c); cbn [length]; lia.
Qed.

Lemma skip_ws_length (s : jstring) : (length (skip_ws s) <= length s)%nat.
Proof. apply drop_while_length. Qed.

Lemma take_digits_length (s : jstring) :
  (length (fst (take_digits s)) + length (snd (take_digits s)) = length s)%nat.
Proof.
  induction s as [|c s IH]; cbn [take_digits]; [reflexivity|].
  destruct (is_digit c); [|cbn; lia].
  destruct (take_digits s) as [ds r]. cbn [fst snd length] in *. lia.
Qed.

Lemma parse_chars_length (n : nat) :
  forall s cs r,
    (length s <= n)%nat -> parse_chars s = Some (cs, r) ->
    (length r < length s)%nat.
Proof.
  induction n as [|n IH]; intros s cs r Hn H.
  - destruct s; [discriminate H | cbn in Hn; lia].
  - destruct s as [|c s]; [discriminate H|]. cbn [parse_chars] in H.
    cbn [length] in *.
    destruct (c =? 34); [injection H as _ <-; lia|].
    destruct (c =? 92).
    + destruct s as [|e s]; [discriminate H|]. cbn [length] in *.
      destruct (e =? 117).
      * destruct s as [|h1 [|h2 [|h3 [|h4 s5]]]]; try discriminate H.
        destruct (hex4 h1 h2 h3 h4); [|discriminate H].
        destruct (parse_chars s5) as [[cs' r']|] eqn:E; [|discriminate H].
        injection H as _ <-. apply IH in E; cbn [length] in *; lia.
      * destruct (simple_escape e); [|discriminate H].
        destruct (parse_chars s) as [[cs' r']|] eqn:E; [|discriminate H].
        injection H as _ <-. apply IH in E; lia.
    + destruct (c <? 32); [discriminate H|].
      destruct (parse_chars s) as [[cs' r']|] eqn:E; [|discriminate H].
      injection H as _ <-. apply IH in E; lia.
Qed.

Lemma strip_sign_length (s : jstring) :
  (length (snd (strip_sign s)) <= length s)%nat.
Proof.
  destruct s as [|c s]; [cbn; lia|].
  destruct c as [|p|p]; try (cbn; lia).
  do 6 (destruct p as [p|p|]; try (cbn; lia)).
Qed.

Lemma parse_minus_length (s : jstring) :
  (length (snd (parse_minus s)) <= length s)%nat.
Proof.
  destruct s as [|c s]; [cbn; lia|].
  destruct c as [|p|p]; try (cbn; lia).
  do 6 (destruct p as [p|p|]; try (cbn; lia)).
Qed.

Lemma parse_fraction_length (s : jstring) (f : list Z) (r : jstring) :
  parse_fraction s = Some (f, r) -> (length r <= length s)%nat.
Proof.
  destruct s as [|c s]; [now intros [= _ <-]|].
  assert (Hdot :
    (let '(f0, r') := take_digits s in
     match f0 with
     | [] => None
     | _ :: _ => Some (f0, r')
     end) = Some (f, r) -> (length r <= length (c :: s))%nat).
  { pose proof (take_digits_length s) as H.
    destruct (take_digits s) as [[|f0 l] r']; [discriminate|].
    intros [= _ <-]. cbn [fst snd length] in *. lia. }
  unfold parse_fraction.
  destruct c as [|p|p]; try (intros [= _ <-]; lia).
  do 6 (destruct p as [p|p|]; try (intros [= _ <-]; lia)).
  exact Hdot.
Qed.

Lemma parse_exponent_length (s : jstring) (e : Z) (r : jstring) :
  parse_exponent s = Some (e, r) -> (length r <= length s)%nat.
Proof.
  destruct s as [|c s]; [now intros [= _ <-]|]. cbn [parse_exponent].
  destruct ((c =? 101) || (c =? 69)); [|intros [= _ <-]; lia].
  pose proof (strip_sign_length s) as H1.
  destruct (strip_sign s) as [eneg r1]. cbn [snd] in H1.
  pose proof (take_digits_length r1) as H2.
  destruct (take_digits r1) as [[|e0 es] r2]; [discriminate|].
  intros [= _ <-]. cbn [fst snd length] in *. lia.
Qed.

Lemma parse_number_length (s : jstring) (n : number) (r : jstring) :
  parse_number s = Some (n, r) -> (length r < length s)%nat.
Proof.
  unfold parse_number.
  pose proof (parse_minus_length s) as H0.
  destruct (parse_minus s) as [neg s1]. cbn [snd] in H0.
  pose proof (take_digits_length s1) as H1.
  destruct (take_digits s1) as [int s2]. cbn [fst snd] in H1.
  destruct int as [|d ds]; [discriminate|]. cbn [length] in H1.
  destruct ((d =? 48) && _); [discriminate|].
  destruct (parse_fraction s2) as [[f s3]|] eqn:Ef; [|discriminate].
  apply parse_fraction_length in Ef.
  destruct (parse_exponent s3) as [[e s4]|] eqn:Ee; [|discriminate].
  apply parse_exponent_length in Ee.
  intros [= _ <-]. lia.
Qed.

Lemma startsWith_length (s p : jstring) :
  startsWith s p = true -> (length p <= length s)%nat.
Proof.
  revert s. induction p as [|a p IH]; intros s H; [cbn; lia|].
  destruct s as [|b s]; [discriminate H|]. cbn [startsWith] in H.
  apply andb_prop in H as [_ H]. apply IH in H. cbn [length]. lia.
Qed.

(** A parsed value has consumed input. *)
Lemma parse_consumes (fuel : nat) :
  (forall s v r, parse_value fuel s = Parsed v r ->
                 (length r < length s)%nat)
  /\ (forall s vs r, parse_elements fuel s = Parsed vs r ->
                     (length r < length s)%nat)
  /\ (forall s ms r, parse_members fuel s = Parsed ms r ->
                     (length r < length s)%nat).
Proof.
  induction fuel as [|fuel (IHv & IHe & IHm)];
    [repeat split; intros; discriminate|].
  repeat split.
  - intros s v r H. cbn [parse_value] in H.
    destruct s as [|c s']; [discriminate H|]. cbn [length].
    destruct (c =? 34).
    { destruct (parse_chars s') as [[cs r0]|] eqn:E; [|discriminate H].
      injection H as _ <-.
      apply (parse_chars_length (length s')) in E; lia. }
    destruct (c =? 91).
    { pose proof (skip_ws_length s') as Hw.
      destruct (skip_ws s') as [|c0 r0] eqn:Ew.
      - break_result H. injection H as _ <-. apply IHe in E. cbn in E. lia.
      - assert (Hgen : forall x,
          match parse_elements fuel (c0 :: r0) with
          | Parsed vs r' => Parsed (VArray vs) r'
          | SyntaxError => SyntaxError
          | OutOfFuel => OutOfFuel
          end = Parsed x r -> (length r < S (length s'))%nat).
        { intros x Hx. break_result Hx. injection Hx as _ <-.
          apply IHe in E. lia. }
        cbn [length] in Hw.
        destruct c0 as [|p|p]; try (now apply Hgen in H).
        do 7 (destruct p as [p|p|]; try (now apply Hgen in H)).
        injection H as _ <-. lia. }
    destruct (c =? 123).
    { pose proof (skip_ws_length s') as Hw.
      destruct (skip_ws s') as [|c0 r0] eqn:Ew.
      - break_result H. injection H as _ <-. apply IHm in E. cbn in E. lia.
      - assert (Hgen : forall x,
          match parse_members fuel (c0 :: r0) with
          | Parsed ms r' => Parsed (VObject ms) r'
          | SyntaxError => SyntaxError
          | OutOfFuel => OutOfFuel
          end = Parsed x r -> (length r < S (length s'))%nat).
        { intros x Hx. break_result Hx. injection Hx as _ <-.
          apply IHm in E. lia. }
        cbn [length] in Hw.
        destruct c0 as [|p|p]; try (now apply Hgen in H).
        do 7 (destruct p as [p|p|]; try (now apply Hgen in H)).
        injection H as _ <-. lia. }
    destruct (startsWith (c :: s') (lit "null")) eqn:En.
    { pose proof (length_skipn 4 (c :: s')) as Hk.
      remember (skipn 4 (c :: s')) as k. injection H as _ <-.
      cbn [length] in Hk. lia. }
    destruct (startsWith (c :: s') (lit "true")) eqn:Et.
    { pose proof (length_skipn 4 (c :: s')) as Hk.
      remember (skipn 4 (c :: s')) as k. injection H as _ <-.
      cbn [length] in Hk. lia. }
    destruct (startsWith (c :: s') (lit "false")) eqn:Ef.
    { pose proof (length_skipn 5 (c :: s')) as Hk.
      remember (skipn 5 (c :: s')) as k. injection H as _ <-.
      cbn [length] in Hk. lia. }
    destruct (parse_number (c :: s')) as [[n r0]|] eqn:E; [|discriminate H].
    injection H as _ <-. apply parse_number_length in E. cbn in E. lia.
  - intros s vs r H. cbn [parse_elements] in H.
    destruct (parse_value fuel s) as [v r0| |] eqn:Ev; try discriminate H.
    apply IHv in Ev. pose proof (skip_ws_length r0) as Hw.
    destruct (skip_ws r0) as [|c0 r1]; [discriminate H|].
    cbn [length] in Hw.
    assert (H44 :
      match parse_elements fuel (skip_ws r1) with
      | Parsed vs0 r'' => Parsed (v :: vs0) r''
      | SyntaxError => SyntaxError
      | OutOfFuel => OutOfFuel
      end = Parsed vs r -> (length r < length s)%nat).
    { intros Hx. break_result Hx. injection Hx as _ <-. apply IHe in E.
      pose proof (skip_ws_length r1). lia. }
    destruct c0 as [|p|p]; try discriminate H.
    do 7 (try (destruct p as [p|p|]; try discriminate H;
               try (now apply H44 in H))).
    injection H as _ <-. lia.
  - intros s ms r H. cbn [parse_members] in H.
    destruct s as [|c s']; [discriminate H|].
    destruct c as [|p|p]; try discriminate H.
    do 6 (try (destruct p as [p|p|]; try discriminate H)).
    destruct (parse_chars s') as [[k r0]|] eqn:Ek; [|discriminate H].
    apply (parse_chars_length (length s')) in Ek; [|lia].
    pose proof (skip_ws_length r0) as Hw0.
    destruct (skip_ws r0) as [|c0 r1]; [discriminate H|].
    cbn [length] in *.
    destruct c0 as [|p|p]; try discriminate H.
    do 6 (try (destruct p as [p|p|]; try discriminate H)).
    destruct (parse_value fuel (skip_ws r1)) as [v r2| |] eqn:Ev;
      try discriminate H.
    apply IHv in Ev. pose proof (skip_ws_length r1) as Hw1.
    pose proof (skip_ws_length r2) as Hw2.
    destruct (skip_ws r2) as [|c1 r3]; [discriminate H|].
    cbn [length] in *.
    assert (H44 :
      match parse_members fuel (skip_ws r3) with
      | Parsed ms0 r4 => Parsed ((k, v) :: ms0) r4
      | SyntaxError => SyntaxError
      | OutOfFuel => OutOfFuel
      end = Parsed ms r -> (length r < S (length s'))%nat).
    { intros Hx. break_result Hx. injection Hx as _ <-. apply IHm in E.
      pose proof (skip_ws_length r3). lia. }
    destruct c1 as [|p|p]; try discriminate H.
    do 7 (try (destruct p as [p|p|]; try discriminate H;
               try (now apply H44 in H))).
    injection H as _ <-. lia.
Qed.

(** With fuel above twice the length of the input the parser does not run
    out of it. *)
Lemma parse_fuel_enough (fuel : nat) :
  (forall s, (2 * length s < fuel)%nat -> parse_value fuel s <> OutOfFuel)
  /\ (forall s, (2 * length s + 1 < fuel)%nat ->
                parse_elements fuel s <> OutOfFuel)
  /\ (forall s, (2 * length s + 1 < fuel)%nat ->
                parse_members fuel s <> OutOfFuel).
Proof.
  induction fuel as [|fuel (IHv & IHe & IHm)];
    [repeat split; intros; lia|].
  destruct (parse_consumes fuel) as (Cv & Ce & Cm).
  repeat split.
  - intros s Hf H. cbn [parse_value] in H.
    destruct s as [|c s']; [discriminate H|]. cbn [length] in Hf.
    destruct (c =? 34).
    { destruct (parse_chars s') as [[cs r0]|]; discriminate H. }
    destruct (c =? 91).
    { pose proof (skip_ws_length s') as Hw.
      destruct (skip_ws s') as [|c0 r0] eqn:Ew.
      - break_result H. apply IHe in E; [exact E | cbn; lia].
      - assert (Hgen :
          match parse_elements fuel (c0 :: r0) with
          | Parsed vs r' => Parsed (VArray vs) r'
          | SyntaxError => SyntaxError
          | OutOfFuel => OutOfFuel
          end = OutOfFuel -> False).
        { intros Hx. break_result Hx. apply IHe in E; [exact E | lia]. }
        destruct c0 as [|p|p]; try (now apply Hgen in H).
        do 7 (try (destruct p as [p|p|]; try (now apply Hgen in H))).
        discriminate H. }
    destruct (c =? 123).
    { pose proof (skip_ws_length s') as Hw.
      destruct (skip_ws s') as [|c0 r0] eqn:Ew.
      - break_result H. apply IHm in E; [exact E | cbn; lia].
      - assert (Hgen :
          match parse_members fuel (c0 :: r0) with
          | Parsed ms r' => Parsed (VObject ms) r'
          | SyntaxError => SyntaxError
          | OutOfFuel => OutOfFuel
          end = OutOfFuel -> False).
        { intros Hx. break_result Hx. apply IHm in E; [exact E | lia]. }
        destruct c0 as [|p|p]; try (now apply Hgen in H).
        do 7 (try (destruct p as [p|p|]; try (now apply Hgen in H))).
        discriminate H. }
    destruct (startsWith (c :: s') (lit "null")); [discriminate H|].
    destruct (startsWith (c :: s') (lit "true")); [discriminate H|].
    destruct (startsWith (c :: s') (lit "false")); [discriminate H|].
    destruct (parse_number (c :: s')) as [[n r0]|]; discriminate H.
  - intros s Hf H. cbn [parse_elements] in H.
    destruct (parse_value fuel s) as [v r0| |] eqn:Ev; try discriminate H.
    + apply Cv in Ev. pose proof (skip_ws_length r0) as Hw.
      destruct (skip_ws r0) as [|c0 r1]; [discriminate H|].
      cbn [length] in Hw.
      assert (H44 :
        match parse_elements fuel (skip_ws r1) with
        | Parsed vs0 r'' => Parsed (v :: vs0) r''
        | SyntaxError => SyntaxError
        | OutOfFuel => OutOfFuel
        end = OutOfFuel -> False).
      { intros Hx. break_result Hx. apply IHe in E; [exact E|].
        pose proof (skip_ws_length r1). lia. }
      destruct c0 as [|p|p]; try discriminate H.
      do 7 (try (destruct p as [p|p|]; try discriminate H;
                 try (now apply H44 in H))).
    + apply IHv in Ev; [exact Ev | lia].
  - intros s Hf H. cbn [parse_members] in H.
    destruct s as [|c s']; [discriminate H|].
    destruct c as [|p|p]; try discriminate H.
    do 6 (try (destruct p as [p|p|]; try discriminate H)).
    destruct (parse_chars s') as [[k r0]|] eqn:Ek; [|discriminate H].
    apply (parse_chars_length (length s')) in Ek; [|lia].
    pose proof (skip_ws_length r0) as Hw0.
    destruct (skip_ws r0) as [|c0 r1]; [discriminate H|].
    cbn [length] in *.
    destruct c0 as [|p|p]; try discriminate H.
    do 6 (try (destruct p as [p|p|]; try discriminate H)).
    pose proof (skip_ws_length r1) as Hw1.
    destruct (parse_value fuel (skip_ws r1)) as [v r2| |] eqn:Ev;
      try discriminate H.
    + apply Cv in Ev. pose proof (skip_ws_length r2) as Hw2.
      destruct (skip_ws r2) as [|c1 r3]; [discriminate H|].
      cbn [length] in *.
      assert (H44 :
        match parse_members fuel (skip_ws r3) with
        | Parsed ms0 r4 => Parsed ((k, v) :: ms0) r4
        | SyntaxError => SyntaxError
        | OutOfFuel => OutOfFuel
        end = OutOfFuel -> False).
      { intros Hx. break_result Hx. apply IHm in E; [exact E|].
        pose proof (skip_ws_length r3). lia. }
      destruct c1 as [|p|p]; try discriminate H.
      do 7 (try (destruct p as [p|p|]; try discriminate H;
                 try (now apply H44 in H))).
    + apply IHv in Ev; [exact Ev | lia].
Qed.

(** X24. [JSON_parse] gives [None] only for a text that is not JSON: its fuel
    is never used up. *)
Lemma JSON_parse_fuel (text : jstring) :
  parse_value (parse_fuel (skip_ws text)) (skip_ws text) <> OutOfFuel.
Proof.
  apply (proj1 (parse_fuel_enough _)). unfold parse_fuel. lia.
Qed.

(** ** Lemmas on the text decoder *)

Lemma decode_app (d : TextDecoder) (a b : list byte) :
  decode d (a ++ b) =
  let '(d1, s1) := decode d a in
  let '(d2, s2) := decode d1 b in
  (d2, s1 ++ s2).
Proof.
  revert d. induction a as [|x a IH]; intros d; simpl.
  - destruct (decode d b). reflexivity.
  - destruct (decode_byte d x) as [d1 s1]. rewrite IH.
    destruct (decode d1 a) as [d2 s2]. destruct (decode d2 b) as [d3 s3].
    now rewrite app_assoc.
Qed.

(** ** The tree of the lines *)

Lemma for_lines_app (l1 l2 : list jstring) (k : Gen) :
  for_lines (l1 ++ l2) k = for_lines l1 (for_lines l2 k).
Proof.
  induction l1 as [|line rest IH]; simpl; [reflexivity|].
  now rewrite IH.
Qed.

(** What one loop iteration does, in five cases: the line is passed over; it
    is the sentinel; it yields content; it yields the terminal chunk for a
    finish reason; it yields both. *)
Lemma for_lines_cons (line : jstring) :
  (forall rest k, for_lines (line :: rest) k = for_lines rest k)
  \/ (forall rest k,
        for_lines (line :: rest) k = Yield terminal (Leave Normal) None)
  \/ (exists c, done c = false /\ truthy (content c) = true /\
        forall rest k,
          for_lines (line :: rest) k =
          Yield c (for_lines rest k) (Some (for_lines rest k)))
  \/ (forall rest k,
        for_lines (line :: rest) k =
        Yield terminal (Leave Normal) (Some (for_lines rest k)))
  \/ (exists c, done c = false /\ truthy (content c) = true /\
        forall rest k,
          for_lines (line :: rest) k =
          Yield c (Yield terminal (Leave Normal) (Some (for_lines rest k)))
            (Some (for_lines rest k))).
Proof.
  cbn [for_lines].
  destruct (jstring_eqb (trim line) []); [now left|].
  destruct (startsWith (trim line) (lit "data: ")); [|now left].
  destruct (jstring_eqb (slice 6 (trim line)) (lit "[DONE]"));
    [right; now left|].
  destruct (JSON_parse (slice 6 (trim line))) as [parsed|]; [|now left].
  set (delta := opt_get (choice0 parsed) (lit "delta")).
  assert (Hget : truthy (opt_get delta (lit "content")) = true ->
                 truthy (get delta (lit "content")) = true).
  { unfold opt_get. now destruct (nullish delta). }
  destruct (truthy (opt_get delta (lit "content")));
    destruct (truthy (opt_get (choice0 parsed) (lit "finish_reason"))).
  - do 4 right. exists (mk_chunk (get delta (lit "content")) false).
    split; [reflexivity|]. split; [now apply Hget|]. reflexivity.
  - do 2 right. left. exists (mk_chunk (get delta (lit "content")) false).
    split; [reflexivity|]. split; [now apply Hget|]. reflexivity.
  - do 3 right. now left.
  - now left.
Qed.

Lemma remaining_buffer_cases (buffer : jstring) :
  remaining_buffer buffer = Leave Normal
  \/ remaining_buffer buffer = Yield terminal (Leave Normal) None.
Proof.
  unfold remaining_buffer.
  destruct (startsWith (trim buffer) (lit "data: ")); [|now left].
  destruct (jstring_eqb (slice 6 (trim buffer)) (lit "[DONE]"));
    [now right|now left].
Qed.

(** *** The reads do not matter, only the text *)

Lemma read_loop_text (segments : list (list byte)) :
  forall (d : TextDecoder) (buffer : jstring),
    one_line buffer = true ->
    read_loop (map Value segments) d buffer =
    text_gen (buffer ++ snd (decode d (concat segments))).
Proof.
  induction segments as [|v segments IH]; intros d buffer Hb.
  - simpl. rewrite app_nil_r. unfold text_gen.
    now rewrite (split_lf_one_line buffer Hb).
  - cbn [map read_loop concat]. rewrite decode_app.
    destruct (decode d v) as [d1 t1].
    rewrite (IH d1 _ (last_split_lf_one_line (buffer ++ t1))).
    destruct (decode d1 (concat segments)) as [d2 t2]. cbn [snd].
    unfold text_gen. rewrite (app_assoc buffer t1 t2).
    rewrite (split_lf_app (buffer ++ t1) t2).
    rewrite removelast_app_nonempty by apply split_lf_nonempty.
    rewrite last_app_nonempty by apply split_lf_nonempty.
    now rewrite for_lines_app.
Qed.

Lemma consume_text (segments : list (list byte)) :
  consume (sse_response segments) = collect (text_gen (stream_text segments)).
Proof.
  unfold consume, sse_response, stream_text. cbn [body locked reads].
  now rewrite read_loop_text.
Qed.

Lemma chunks_text (segments : list (list byte)) :
  chunks (sse_response segments) = text_chunks (stream_text segments).
Proof. unfold chunks, text_chunks. now rewrite consume_text. Qed.

(** *** At most one terminal chunk, and it comes last *)

Lemma for_lines_wt (lines : list jstring) (k : Gen) :
  well_terminated k -> well_terminated (for_lines lines k).
Proof.
  intros Hk. induction lines as [|line rest IH]; [exact Hk|].
  destruct (for_lines_cons line)
    as [H | [H | [(c & Hd & Ht & H) | [H | (c & Hd & Ht & H)]]]];
    rewrite H.
  - exact IH.
  - apply wt_terminal.
  - now apply wt_content.
  - apply wt_terminal.
  - apply wt_content; [assumption..|apply wt_terminal].
Qed.

Lemma remaining_buffer_wt (buffer : jstring) :
  well_terminated (remaining_buffer buffer).
Proof.
  destruct (remaining_buffer_cases buffer) as [H | H]; rewrite H;
    [apply wt_leave | apply wt_terminal].
Qed.

Lemma read_loop_wt (rs : list read_result) :
  forall d buffer, well_terminated (read_loop rs d buffer).
Proof.
  induction rs as [|r rs IH]; intros d buffer.
  - apply remaining_buffer_wt.
  - destruct r as [v | | e]; cbn [read_loop].
    + destruct (decode d v) as [d1 t1]. apply for_lines_wt, IH.
    + apply remaining_buffer_wt.
    + constructor.
Qed.

Lemma truthy_string_nonempty (v : value) (s : jstring) :
  truthy v = true -> v = VString s -> s <> [].
Proof. intros Ht -> ->. discriminate. Qed.

Lemma collect_wt (g : Gen) :
  well_terminated g ->
  exists pre,
    (fst (collect g) = pre \/
     (fst (collect g) = pre ++ [terminal] /\ snd (collect g) = Normal))
    /\ Forall content_chunk pre.
Proof.
  induction 1 as [c | c n t Hd Ht Hn IH | t].
  - exists []. split; [now left | constructor].
  - destruct IH as (pre & Hpre & Hall). cbn [collect].
    destruct (collect n) as [cs r]. cbn [fst snd] in *.
    exists (c :: pre). split.
    + destruct Hpre as [-> | [-> ->]]; [now left | now right].
    + constructor; [|exact Hall].
      repeat split; [assumption..|].
      intros s. now apply truthy_string_nonempty.
  - exists []. split; [now right | constructor].
Qed.

Lemma consume_wt (response : Response) :
  exists pre,
    (chunks response = pre \/
     (chunks response = pre ++ [terminal] /\ snd (consume response) = Normal))
    /\ Forall content_chunk pre.
Proof.
  unfold chunks, consume.
  destruct (body response) as [stream|];
    [destruct (locked stream)|];
    try (exists []; split; [now left | constructor]).
  apply collect_wt, read_loop_wt.
Qed.

Lemma filter_done_content (pre : list StreamChunk) :
  Forall content_chunk pre -> filter done pre = [].
Proof.
  induction 1 as [|c pre (Hd & _) _ IH]; [reflexivity|].
  cbn [filter]. now rewrite Hd.
Qed.

Lemma filter_done_chunks (response : Response) :
  filter done (chunks response) = [] \/
  filter done (chunks response) = [terminal].
Proof.
  destruct (consume_wt response) as (pre & [-> | [-> _]] & Hall).
  - left. now apply filter_done_content.
  - right. rewrite filter_app, (filter_done_content pre Hall). reflexivity.
Qed.

(** *** Lines in sequence *)

(** The chunks of some lines followed by [k] are the chunks of the lines
    alone, and then those of [k] unless the lines ended the sequence. *)
Lemma collect_for_lines (lines : list jstring) (k : Gen) :
  collect (for_lines lines k) =
  let '(cs, r) := collect (for_lines lines (Leave Normal)) in
  if none_done cs then (cs ++ fst (collect k), snd (collect k)) else (cs, r).
Proof.
  induction lines as [|line rest IH].
  - cbn. now destruct (collect k).
  - destruct (for_lines_cons line)
      as [H | [H | [(c & Hd & Ht & H) | [H | (c & Hd & Ht & H)]]]];
      rewrite (H rest k), (H rest (Leave Normal)).
    + exact IH.
    + reflexivity.
    + cbn [collect]. rewrite IH.
      destruct (collect (for_lines rest (Leave Normal))) as [cs r].
      cbn [none_done forallb]. fold (none_done cs). rewrite Hd. cbn [negb andb].
      now destruct (none_done cs).
    + reflexivity.
    + cbn [collect none_done forallb]. rewrite Hd. reflexivity.
Qed.

Lemma text_gen_aligned (a : jstring) :
  line_aligned a ->
  text_gen a = for_lines (removelast (split_lf a)) (Leave Normal).
Proof. intros Ha. unfold text_gen. now rewrite Ha. Qed.

Lemma text_gen_prefix (a t : jstring) :
  line_aligned a ->
  text_gen (a ++ t) = for_lines (removelast (split_lf a)) (text_gen t).
Proof.
  intros Ha. unfold text_gen. rewrite (line_aligned_app a t Ha).
  rewrite removelast_app_nonempty by apply split_lf_nonempty.
  rewrite last_app_nonempty by apply split_lf_nonempty.
  now rewrite for_lines_app.
Qed.

Lemma text_gen_line (l t : jstring) :
  one_line l = true -> text_gen (l ++ 10 :: t) = for_lines [l] (text_gen t).
Proof.
  intros Hl. unfold text_gen. rewrite (split_lf_line l t Hl).
  destruct (split_lf t) as [|x xs] eqn:E.
  - now apply split_lf_nonempty in E.
  - reflexivity.
Qed.

Lemma collect_text_gen_app (a t : jstring) :
  line_aligned a ->
  collect (text_gen (a ++ t)) =
  let '(cs, r) := collect (text_gen a) in
  if none_done cs then (cs ++ fst (collect (text_gen t)),
                        snd (collect (text_gen t)))
  else (cs, r).
Proof.
  intros Ha. rewrite (text_gen_prefix a t Ha), (text_gen_aligned a Ha).
  apply collect_for_lines.
Qed.

(** A stream that is read to its end without a rejection ends normally. *)
Lemma for_lines_normal (lines : list jstring) (k : Gen) :
  snd (collect k) = Normal -> snd (collect (for_lines lines k)) = Normal.
Proof.
  intros Hk. induction lines as [|line rest IH]; [exact Hk|].
  destruct (for_lines_cons line)
    as [H | [H | [(c & Hd & Ht & H) | [H | (c & Hd & Ht & H)]]]];
    rewrite H; cbn [collect]; try reflexivity; try exact IH.
  now destruct (collect (for_lines rest k)).
Qed.

Lemma text_gen_normal (t : jstring) : snd (collect (text_gen t)) = Normal.
Proof.
  apply for_lines_normal.
  destruct (remaining_buffer_cases (last (split_lf t) [])) as [H | H];
    now rewrite H.
Qed.

Lemma consume_normal (segments : list (list byte)) :
  snd (consume (sse_response segments)) = Normal.
Proof. rewrite consume_text. apply text_gen_normal. Qed.

(** *** Data lines *)

Lemma data_of_Some (l data : jstring) :
  data_of l = Some data ->
  jstring_eqb (trim l) [] = false /\
  startsWith (trim l) (lit "data: ") = true /\
  slice 6 (trim l) = data.
Proof.
  unfold data_of. destruct (startsWith (trim l) (lit "data: ")) eqn:E;
    [|discriminate].
  intros [= <-]. repeat split.
  destruct (trim l); [discriminate | reflexivity].
Qed.

Lemma JSON_parse_sentinel : JSON_parse (lit "[DONE]") = None.
Proof. reflexivity. Qed.

(** A data line whose payload is neither the sentinel nor JSON text changes
    nothing. *)
Lemma for_lines_malformed (l data : jstring) (rest : list jstring) (k : Gen) :
  data_of l = Some data -> data <> lit "[DONE]" -> JSON_parse data = None ->
  for_lines (l :: rest) k = for_lines rest k.
Proof.
  intros Hd Hs Hp. apply data_of_Some in Hd as (H1 & H2 & H3).
  cbn [for_lines]. rewrite H1, H2, H3, Hp.
  apply jstring_eqb_neq in Hs. now rewrite Hs.
Qed.

(** A data line whose payload is JSON text: the two checks of the source. *)
Lemma for_lines_parsed (l data : jstring) (parsed : value)
    (rest : list jstring) (k : Gen) :
  data_of l = Some data -> JSON_parse data = Some parsed ->
  for_lines (l :: rest) k =
  let delta := opt_get (choice0 parsed) (lit "delta") in
  let finish :=
    if truthy (opt_get (choice0 parsed) (lit "finish_reason"))
    then Yield terminal (Leave Normal) (Some (for_lines rest k))
    else for_lines rest k in
  if truthy (opt_get delta (lit "content"))
  then Yield (mk_chunk (get delta (lit "content")) false) finish
         (Some (for_lines rest k))
  else finish.
Proof.
  intros Hd Hp. apply data_of_Some in Hd as (H1 & H2 & H3).
  cbn [for_lines]. rewrite H1, H2, H3, Hp.
  destruct (jstring_eqb data (lit "[DONE]")) eqn:E; [|reflexivity].
  apply jstring_eqb_eq in E. rewrite E, JSON_parse_sentinel in Hp.
  discriminate.
Qed.

Lemma opt_get_string (v : value) (name s : jstring) :
  opt_get v name = VString s -> get v name = VString s.
Proof. unfold opt_get. now destruct (nullish v). Qed.

(** ** The stream decoder: the claims *)

(** C1. Two segmentations of one byte sequence into reads, cut anywhere
    (inside a line, inside a UTF-8 sequence), make [parseSSEStream] produce
    the same chunk sequence, ended the same way. It holds for every byte
    sequence, well-formed or not. *)
Theorem split_invariance (s1 s2 : list (list byte)) :
  concat s1 = concat s2 ->
  chunks (sse_response s1) = chunks (sse_response s2) /\
  consume (sse_response s1) = consume (sse_response s2).
Proof.
  intros H. rewrite !chunks_text, !consume_text. unfold stream_text.
  now rewrite H.
Qed.

Lemma split_invariance_witness :
  concat [cafe_stream] = concat cafe_pieces /\
  chunks (sse_response [cafe_stream]) = chunks (sse_response cafe_pieces) /\
  consume (sse_response [cafe_stream]) = consume (sse_response cafe_pieces).
Proof.
  split; [reflexivity|].
  apply (split_invariance [cafe_stream] cafe_pieces). reflexivity.
Defined.

(** The scenario of the specification: two reads, two content chunks, the
    terminal chunk. *)
Example two_reads :
  consume (sse_response
             [bytesq "data: {'choices':[{'delta':{'content':'Hel'}}]}" ++ lf;
              bytesq "data: {'choices':[{'delta':{'content':'lo'}}]}"
              ++ lf ++ lf ++ bytesq "data: [DONE]" ++ lf ++ lf]) =
  ([mk_chunk (VString (lit "Hel")) false; mk_chunk (VString (lit "lo")) false;
    terminal], Normal).
Proof. reflexivity. Qed.

Example cafe_chunks :
  chunks (sse_response cafe_pieces) =
  [mk_chunk (VString [99; 97; 102; 233]) false; terminal].
Proof. reflexivity. Qed.

Lemma none_done_filter (cs : list StreamChunk) :
  none_done cs = true <-> filter done cs = [].
Proof.
  induction cs as [|c cs IH]; cbn [none_done forallb filter].
  - now split.
  - fold (none_done cs). destruct (done c); cbn [negb andb].
    + split; discriminate.
    + exact IH.
Qed.

Lemma none_done_app (a b : list StreamChunk) :
  none_done (a ++ b) = none_done a && none_done b.
Proof. apply forallb_app. Qed.

Lemma none_done_content (pre : list StreamChunk) :
  Forall content_chunk pre -> none_done pre = true.
Proof. intros H. apply none_done_filter. now apply filter_done_content. Qed.

Lemma text_gen_wt (t : jstring) : well_terminated (text_gen t).
Proof. apply for_lines_wt, remaining_buffer_wt. Qed.

(** C10, as amended. In the sequence [parseSSEStream] produces, whatever the
    response, at most one chunk has [done] set; it is then the last one and
    is [{content: "", done: true}]. Every chunk before it has [done] unset
    and a truthy content, the value of [choices[0].delta.content] as it was
    parsed; when that content is a string, it is not empty. *)
Theorem terminal_chunk_last (response : Response) :
  exists pre,
    (chunks response = pre \/ chunks response = pre ++ [terminal])
    /\ Forall content_chunk pre
    /\ (length (filter done (chunks response)) <= 1)%nat.
Proof.
  destruct (consume_wt response) as (pre & Hshape & Hall).
  exists pre. split; [|split; [exact Hall|]].
  - destruct Hshape as [H | [H _]]; [now left | now right].
  - destruct (filter_done_chunks response) as [-> | ->]; cbn; lia.
Qed.

(** C10 as stated fails: a frame whose [content] is the number 1 gives a
    chunk with [done] unset whose content is not a string. *)
Lemma content_not_a_string :
  exists c,
    In c (chunks (sse_response [number_stream])) /\ done c = false /\
    forall s, content c <> VString s.
Proof.
  exists (mk_chunk (VNumber (Dec false 1 0)) false).
  split; [left; reflexivity|]. split; [reflexivity|]. discriminate.
Qed.

(** C4 as stated fails: no response makes the decoder emit two chunks with
    [done] set to a consumer that iterates over the sequence. (Only a
    [throw()] sent into the generator while it is suspended at the terminal
    chunk of a finish reason, which the inner [catch] swallows, makes the
    loop go on: see [throw_after_finish].) *)
Lemma no_second_terminal :
  ~ exists response, (2 <= length (filter done (chunks response)))%nat.
Proof.
  intros (response & H).
  destruct (filter_done_chunks response) as [E | E]; rewrite E in H;
    cbn in H; lia.
Qed.

(** A frame with a truthy finish reason ends with the terminal chunk whatever
    comes after it. *)
Lemma for_lines_finish (l data : jstring) (parsed : value) :
  data_of l = Some data -> JSON_parse data = Some parsed ->
  truthy (opt_get (choice0 parsed) (lit "finish_reason")) = true ->
  exists x, forall rest k,
    collect (for_lines (l :: rest) k) = (x ++ [terminal], Normal).
Proof.
  intros Hd Hp Hf.
  destruct (truthy (opt_get (opt_get (choice0 parsed) (lit "delta"))
                      (lit "content"))) eqn:Hc.
  - eexists [_]. intros rest k.
    rewrite (for_lines_parsed l data parsed rest k Hd Hp). cbv zeta.
    rewrite Hc, Hf. reflexivity.
  - exists []. intros rest k.
    rewrite (for_lines_parsed l data parsed rest k Hd Hp). cbv zeta.
    rewrite Hc, Hf. reflexivity.
Qed.

(** C4, as amended. The two triggers are separate checks, but the first one
    met ends the sequence: once a frame with a truthy [finish_reason] is
    there, whatever follows it in the stream, a [data: [DONE]] frame
    included, changes nothing, and the sequence has exactly one terminal
    chunk. *)
Theorem finish_reason_ends_stream
    (segments segments' : list (list byte)) (a l b data : jstring)
    (parsed : value) :
  stream_text segments = a ++ l ++ 10 :: b ->
  stream_text segments' = a ++ l ++ [10] ->
  line_aligned a -> one_line l = true ->
  data_of l = Some data -> JSON_parse data = Some parsed ->
  truthy (opt_get (choice0 parsed) (lit "finish_reason")) = true ->
  consume (sse_response segments) = consume (sse_response segments') /\
  filter done (chunks (sse_response segments)) = [terminal].
Proof.
  intros Hs Hs' Ha Hl Hd Hp Hf.
  destruct (for_lines_finish l data parsed Hd Hp Hf) as (x & Hx).
  assert (Hc : forall t,
    collect (text_gen (a ++ l ++ 10 :: t)) =
    let '(cs, r) := collect (text_gen a) in
    if none_done cs then (cs ++ x ++ [terminal], Normal) else (cs, r)).
  { intros t. rewrite (collect_text_gen_app a _ Ha).
    now rewrite (text_gen_line l t Hl), Hx. }
  split.
  - now rewrite !consume_text, Hs, Hs', !Hc.
  - destruct (filter_done_chunks (sse_response segments)) as [E | E];
      [exfalso | exact E].
    apply none_done_filter in E. revert E.
    rewrite chunks_text, Hs. unfold text_chunks. rewrite Hc.
    destruct (collect (text_gen a)) as [cs r].
    destruct (none_done cs) eqn:Hn; cbn [fst].
    + rewrite !none_done_app. cbn. rewrite !andb_false_r. discriminate.
    + rewrite Hn. discriminate.
Qed.

Lemma finish_reason_ends_stream_witness :
  consume (sse_response [finish_then_done]) =
  consume (sse_response [finish_only]) /\
  filter done (chunks (sse_response [finish_then_done])) = [terminal].
Proof.
  apply (finish_reason_ends_stream [finish_then_done] [finish_only]
           [] (litq finish_frame)
           ([10] ++ lit "data: [DONE]" ++ [10; 10])
           (skipn 6 (litq finish_frame))
           (VObject
              [(lit "choices",
                VArray
                  [VObject
                     [(lit "delta", VObject [(lit "content",
                                              VString (lit "Hi"))]);
                      (lit "finish_reason", VString (lit "stop"))]])]));
    reflexivity.
Defined.

(** *** The sentinel as last frame *)

Lemma drop_while_app_all (p : Z -> bool) (a b : jstring) :
  forallb p a = true -> drop_while p (a ++ b) = drop_while p b.
Proof.
  induction a as [|c a IH]; [reflexivity|]. cbn [forallb app drop_while].
  intros H. apply andb_prop in H as [Hc Ha]. now rewrite Hc, IH.
Qed.

Lemma forallb_rev {A} (p : A -> bool) (l : list A) :
  forallb p (rev l) = forallb p l.
Proof.
  induction l as [|x l IH]; [reflexivity|]. cbn [rev forallb].
  rewrite forallb_app, IH. cbn. rewrite andb_true_r. apply andb_comm.
Qed.

Lemma trim_sentinel (w : jstring) :
  forallb is_js_whitespace w = true ->
  trim (lit "data: [DONE]" ++ w) = lit "data: [DONE]".
Proof.
  intros Hw. unfold trim.
  change (trimStart (lit "data: [DONE]" ++ w)) with (lit "data: [DONE]" ++ w).
  unfold trimEnd. rewrite rev_app_distr, drop_while_app_all
    by now rewrite forallb_rev.
  reflexivity.
Qed.

(** A text is one line, or a first line, a line feed and the rest. *)
Lemma first_line (s : jstring) :
  one_line s = true \/
  exists w rest, s = w ++ 10 :: rest /\ one_line w = true.
Proof.
  induction s as [|c s IH]; [now left|].
  destruct (c =? 10) eqn:Hc.
  - right. exists [], s. apply Z.eqb_eq in Hc. now subst c.
  - destruct IH as [H | (w & rest & -> & H)].
    + left. cbn [one_line forallb]. now rewrite Hc.
    + right. exists (c :: w), rest. split; [reflexivity|].
      cbn [one_line forallb]. now rewrite Hc.
Qed.

Lemma sentinel_line (w : jstring) (rest : list jstring) (k : Gen) :
  forallb is_js_whitespace w = true ->
  for_lines ((lit "data: [DONE]" ++ w) :: rest) k =
  Yield terminal (Leave Normal) None.
Proof.
  intros Hw. cbn [for_lines]. rewrite (trim_sentinel w Hw). reflexivity.
Qed.

(** The sentinel followed by white space only, line feeds or not. *)
Lemma sentinel_tail (sfx : jstring) :
  forallb is_js_whitespace sfx = true ->
  collect (text_gen (lit "data: [DONE]" ++ sfx)) = ([terminal], Normal).
Proof.
  intros Hw. destruct (first_line sfx) as [H | (w & rest & -> & H)].
  - unfold text_gen. rewrite split_lf_one_line.
    + cbn [removelast last for_lines]. unfold remaining_buffer.
      rewrite (trim_sentinel sfx Hw). reflexivity.
    + unfold one_line. rewrite forallb_app. now apply andb_true_intro.
  - rewrite forallb_app in Hw. apply andb_prop in Hw as [Hw _].
    rewrite app_assoc, text_gen_line.
    + now rewrite (sentinel_line w _ _ Hw).
    + unfold one_line. rewrite forallb_app. now apply andb_true_intro.
Qed.

(** C5. When the last frame of the stream is [data: [DONE]], followed by
    nothing (the line is left in the buffer at end-of-data), by a line feed or
    by any white space, the sequence produced ends with the one chunk
    [{content: "", done: true}]: no chunk before it has [done] set, none
    comes after it, and the sequence ends without error. *)
Theorem done_frame_last
    (segments : list (list byte)) (p sfx : jstring) :
  stream_text segments = p ++ lit "data: [DONE]" ++ sfx ->
  line_aligned p ->
  forallb is_js_whitespace sfx = true ->
  exists pre,
    consume (sse_response segments) = (pre ++ [terminal], Normal)
    /\ Forall content_chunk pre
    /\ filter done (chunks (sse_response segments)) = [terminal].
Proof.
  intros Hs Hp Hw.
  assert (H : exists pre,
    consume (sse_response segments) = (pre ++ [terminal], Normal)
    /\ Forall content_chunk pre).
  { rewrite consume_text, Hs, (collect_text_gen_app p _ Hp).
    rewrite (sentinel_tail sfx Hw). cbn [fst snd].
    destruct (collect_wt _ (text_gen_wt p)) as (pre & Hshape & Hall).
    destruct (collect (text_gen p)) as [cs r]. cbn [fst snd] in Hshape.
    exists pre. split; [|exact Hall].
    destruct Hshape as [-> | [-> ->]].
    - now rewrite (none_done_content pre Hall).
    - rewrite none_done_app. cbn. now rewrite andb_false_r. }
  destruct H as (pre & Hc & Hall). exists pre.
  split; [exact Hc|]. split; [exact Hall|].
  unfold chunks. rewrite Hc. cbn [fst].
  now rewrite filter_app, (filter_done_content pre Hall).
Qed.

(** At a stream cut into reads, and at the dangling sentinel: nothing after
    it, not even a line feed. *)
Lemma done_frame_last_witness :
  (exists pre,
     consume (sse_response cafe_pieces) = (pre ++ [terminal], Normal)
     /\ Forall content_chunk pre
     /\ filter done (chunks (sse_response cafe_pieces)) = [terminal])
  /\
  (exists pre,
     consume (sse_response [bytesq "data: [DO"; bytesq "NE]"])
     = (pre ++ [terminal], Normal)
     /\ Forall content_chunk pre
     /\ filter done
          (chunks (sse_response [bytesq "data: [DO"; bytesq "NE]"]))
        = [terminal]).
Proof.
  split.
  - apply (done_frame_last cafe_pieces
             (litq "data: {'choices':[{'delta':{'content':'caf"
              ++ [233] ++ litq "'}}]}" ++ [10; 10])
             [10; 10]); reflexivity.
  - apply (done_frame_last [bytesq "data: [DO"; bytesq "NE]"] [] []);
      reflexivity.
Defined.

(** *** A frame with content and a finish reason *)

(** C6. A complete data line whose payload parses to a value with a non-empty
    string at [choices[0].delta.content] and a truthy
    [choices[0].finish_reason], reached before the sequence has ended, makes
    the decoder emit exactly two chunks, the content chunk and then the
    terminal chunk, and the sequence ends there, whatever follows in the
    stream. *)
Theorem content_then_terminal
    (segments : list (list byte)) (a l b data s : jstring) (parsed : value) :
  stream_text segments = a ++ l ++ 10 :: b ->
  line_aligned a -> one_line l = true ->
  data_of l = Some data -> JSON_parse data = Some parsed ->
  opt_get (opt_get (choice0 parsed) (lit "delta")) (lit "content")
    = VString s ->
  s <> [] ->
  truthy (opt_get (choice0 parsed) (lit "finish_reason")) = true ->
  none_done (text_chunks a) = true ->
  consume (sse_response segments) =
  (text_chunks a ++ [mk_chunk (VString s) false; terminal], Normal).
Proof.
  intros Hs Ha Hl Hd Hp Hc Hne Hf Hn.
  rewrite consume_text, Hs, (collect_text_gen_app a _ Ha).
  rewrite (text_gen_line l b Hl).
  rewrite (for_lines_parsed l data parsed [] _ Hd Hp). cbv zeta.
  rewrite Hf, (opt_get_string _ _ _ Hc), Hc.
  assert (Ht : truthy (VString s) = true).
  { cbn. apply negb_true_iff, jstring_eqb_neq. exact Hne. }
  rewrite Ht. unfold text_chunks in *.
  destruct (collect (text_gen a)) as [cs r]. cbn [fst] in *.
  now rewrite Hn.
Qed.

Lemma content_then_terminal_witness :
  consume (sse_response [bytesq content_frame ++ lf; finish_then_done]) =
  ([mk_chunk (VString (lit "a")) false;
    mk_chunk (VString (lit "Hi")) false; terminal], Normal).
Proof.
  apply (content_then_terminal
           [bytesq content_frame ++ lf; finish_then_done]
           (litq content_frame ++ [10])
           (litq finish_frame)
           ([10] ++ lit "data: [DONE]" ++ [10; 10])
           (skipn 6 (litq finish_frame)) (lit "Hi")
           (VObject
              [(lit "choices",
                VArray
                  [VObject
                     [(lit "delta", VObject [(lit "content",
                                              VString (lit "Hi"))]);
                      (lit "finish_reason", VString (lit "stop"))]])]));
    try reflexivity.
  discriminate.
Defined.

(** *** Data lines that are not JSON text *)

(** C7. A complete data line whose payload is not JSON text (a malformed
    frame; the sentinel [[DONE]], which the decoder recognises before it
    parses, is not one) adds no chunk and raises no error: the stream
    yields what it yields without that line, and ends normally. *)
Theorem malformed_line_skipped
    (segments segments' : list (list byte)) (a l b data : jstring) :
  stream_text segments = a ++ l ++ 10 :: b ->
  stream_text segments' = a ++ b ->
  line_aligned a -> one_line l = true ->
  data_of l = Some data -> data <> lit "[DONE]" -> JSON_parse data = None ->
  consume (sse_response segments) = consume (sse_response segments') /\
  snd (consume (sse_response segments)) = Normal.
Proof.
  intros Hs Hs' Ha Hl Hd Hsent Hp. split; [|apply consume_normal].
  rewrite !consume_text, Hs, Hs'.
  rewrite (text_gen_prefix a _ Ha), (text_gen_prefix a b Ha).
  rewrite (text_gen_line l b Hl).
  now rewrite (for_lines_malformed l data [] _ Hd Hsent Hp).
Qed.

Lemma malformed_line_skipped_witness :
  consume (sse_response [noisy_stream]) = consume (sse_response [quiet_stream])
  /\ snd (consume (sse_response [noisy_stream])) = Normal.
Proof.
  apply (malformed_line_skipped [noisy_stream] [quiet_stream]
           (litq content_frame ++ [10]) (lit "data: {oops")
           (lit "data: [DONE]" ++ [10]) (lit "{oops"));
    try reflexivity.
  discriminate.
Defined.

(** ** The generator and its reader *)

Lemma run_discipline (t : Gen) :
  reader_discipline (snd (run t 1 0)).
Proof. destruct t; cbn; auto. Qed.

Lemma resume_discipline (g : generator) (r : request) :
  reader_discipline g -> reader_discipline (snd (resume g r)).
Proof.
  destruct g as [st acq rel]. unfold reader_discipline, resume.
  cbn [state acquired released].
  destruct st as [response | on_next on_throw | ].
  - intros [-> ->]. destruct r; cbn; auto.
    destruct (body response) as [stream|]; cbn; auto.
    destruct (locked stream); cbn; auto.
    apply run_discipline.
  - intros [-> ->]. destruct r; [apply run_discipline | cbn; auto |].
    destruct on_throw; [apply run_discipline | cbn; auto].
  - intros H. destruct r; exact H.
Qed.

Lemma drive_discipline (rs : list request) :
  forall g, reader_discipline g -> reader_discipline (snd (drive g rs)).
Proof.
  induction rs as [|r rs IH]; intros g Hg; [exact Hg|].
  cbn [drive]. pose proof (resume_discipline g r Hg) as H.
  destruct (resume g r) as [res g1]. cbn [snd] in H.
  specialize (IH g1 H). now destruct (drive g1 rs).
Qed.

Lemma run_no_value (t : Gen) (acq rel : nat) :
  no_value (fst (run t acq rel)) -> state (snd (run t acq rel)) = Completed.
Proof. destruct t; cbn; [contradiction | reflexivity]. Qed.

(** A request that is not answered by a chunk leaves the generator
    completed. *)
Lemma resume_no_value (g : generator) (r : request) :
  no_value (fst (resume g r)) -> state (snd (resume g r)) = Completed.
Proof.
  destruct g as [st acq rel]. unfold resume. cbn [state acquired released].
  destruct st as [response | on_next on_throw | ].
  - destruct r; try reflexivity.
    destruct (body response) as [stream|]; [|reflexivity].
    destruct (locked stream); [reflexivity|]. apply run_no_value.
  - destruct r; [apply run_no_value | reflexivity |].
    destruct on_throw; [apply run_no_value | reflexivity].
  - destruct r; reflexivity.
Qed.

(** [return()] is answered by [{ done: true }] and leaves the generator
    completed, wherever it was. *)
Lemma resume_return (g : generator) :
  fst (resume g Return) = IterDone /\ state (snd (resume g Return)) = Completed.
Proof.
  destruct g as [st acq rel]. unfold resume. cbn [state acquired released].
  destruct st; now split.
Qed.

Lemma run_started (t : Gen) (acq rel : nat) :
  started (snd (run t acq rel)) /\ acquired (snd (run t acq rel)) = acq.
Proof. destruct t; now split. Qed.

Lemma resume_started (g : generator) (r : request) :
  started (snd (resume g r)).
Proof.
  destruct g as [st acq rel]. unfold resume. cbn [state acquired released].
  destruct st as [response | on_next on_throw | ].
  - destruct r; try exact I.
    destruct (body response) as [stream|]; [|exact I].
    destruct (locked stream); [exact I|]. apply run_started.
  - destruct r; [apply run_started | exact I |].
    destruct on_throw; [apply run_started | exact I].
  - destruct r; exact I.
Qed.

Lemma resume_acquired (g : generator) (r : request) :
  started g -> acquired (snd (resume g r)) = acquired g.
Proof.
  destruct g as [st acq rel]. unfold started, resume.
  cbn [state acquired released].
  destruct st as [response | on_next on_throw | ]; [contradiction | |];
    intros _.
  - destruct r; [apply run_started | reflexivity |].
    destruct on_throw; [apply run_started | reflexivity].
  - destruct r; reflexivity.
Qed.

Lemma drive_acquired (rs : list request) :
  forall g, started g ->
    started (snd (drive g rs)) /\ acquired (snd (drive g rs)) = acquired g.
Proof.
  induction rs as [|r rs IH]; intros g Hg; [now split|].
  cbn [drive]. pose proof (resume_started g r) as Hs.
  pose proof (resume_acquired g r Hg) as Ha.
  destruct (resume g r) as [res g1]. cbn [snd] in Hs, Ha.
  destruct (IH g1 Hs) as [Hs2 Ha2]. destruct (drive g1 rs) as [ress g2].
  cbn [snd] in *. split; [exact Hs2 | congruence].
Qed.

(** The first [next()] on a generator whose body can be read acquires the
    reader. *)
Lemma first_next (response : Response) (stream : ReadableStream) :
  body response = Some stream -> locked stream = false ->
  started (snd (resume (parseSSEStream response) Next))
  /\ acquired (snd (resume (parseSSEStream response) Next)) = 1%nat.
Proof.
  intros Hb Hl. unfold resume, parseSSEStream. cbn [state acquired released].
  rewrite Hb, Hl. apply run_started.
Qed.

(** *** [for await] and [consume] *)

Lemma for_await_collect (n : Gen) :
  forall (t : option Gen) (acq rel fuel : nat),
    (length (fst (collect n)) < fuel)%nat ->
    for_await fuel (mk_generator (SuspendedYield n t) acq rel) =
    (fst (collect n), Some (snd (collect n)),
     mk_generator Completed acq (S rel)).
Proof.
  induction n as [c n IH t' | c]; intros t acq rel fuel Hf.
  - cbn [collect] in *. destruct (collect n) as [cs r]. cbn [fst snd] in *.
    destruct fuel as [|fuel]; [lia|]. cbn [length] in Hf.
    cbn. rewrite IH by lia. reflexivity.
  - destruct fuel as [|fuel]; [cbn in Hf; lia|]. now destruct c.
Qed.

(** From wherever it stands, a started generator iterated with [next()]
    comes to its end, and then every acquired reader is released. *)
Lemma for_await_ends (g : generator) :
  started g -> reader_discipline g ->
  exists fuel cs c g',
    for_await fuel g = (cs, Some c, g')
    /\ state g' = Completed /\ released g' = acquired g'
    /\ acquired g' = acquired g.
Proof.
  destruct g as [st acq rel]. unfold started, reader_discipline.
  cbn [state acquired released].
  destruct st as [response | n t | ]; [contradiction | |]; intros _.
  - intros [-> ->].
    exists (S (length (fst (collect n)))), (fst (collect n)),
           (snd (collect n)), (mk_generator Completed 1 1).
    split; [apply for_await_collect; lia | now repeat split].
  - intros [-> Hle].
    exists 1%nat, [], Normal, (mk_generator Completed acq acq).
    now repeat split.
Qed.

(** *** The reader on every way out *)

(** C9. Whatever the response, and whatever the consumer has done with the
    generator so far, after one more request ([next()], [return()] when the
    consumer abandons the iteration, [throw()]):
    - if the request is not answered by a chunk (end-of-data, the [return]
      after a terminal chunk, a rejected read, which the consumer gets as an
      exception), the generator has completed;
    - [return()] is answered by [{ done: true }] and completes the
      generator, wherever it is suspended;
    - a completed generator has released its reader as often as it acquired
      one, and a generator that has not completed holds the one reader it
      acquired, unreleased;
    - the reader is acquired at most once, and exactly once when the
      consumer began with [next()] on a body that can be read, so that on
      every way out it is released exactly once;
    - a consumer that goes on with [next()] gets to the end after finitely
      many chunks, with the reader released. *)
Theorem reader_released_once
    (response : Response) (rs : list request) (r : request)
    (res : iter_result) (g : generator) :
  resume (snd (drive (parseSSEStream response) rs)) r = (res, g) ->
  (no_value res -> state g = Completed)
  /\ (r = Return -> res = IterDone /\ state g = Completed)
  /\ (state g = Completed -> released g = acquired g)
  /\ (state g <> Completed -> acquired g = 1%nat /\ released g = 0%nat)
  /\ (acquired g <= 1)%nat
  /\ (forall stream,
        body response = Some stream -> locked stream = false ->
        hd r rs = Next -> acquired g = 1%nat)
  /\ (exists fuel cs c g',
        for_await fuel g = (cs, Some c, g')
        /\ state g' = Completed /\ released g' = acquired g'
        /\ acquired g' = acquired g).
Proof.
  intros Hr.
  set (g0 := snd (drive (parseSSEStream response) rs)) in *.
  assert (Hd0 : reader_discipline g0).
  { apply drive_discipline. cbn. auto. }
  pose proof (resume_discipline g0 r Hd0) as Hd.
  pose proof (resume_started g0 r) as Hs.
  pose proof (resume_no_value g0 r) as Hn.
  rewrite Hr in Hd, Hs, Hn. cbn [fst snd] in Hd, Hs, Hn.
  split; [exact Hn|].
  split.
  { intros ->. pose proof (resume_return g0) as H. rewrite Hr in H.
    exact H. }
  split; [|split; [|split; [|split]]].
  - intros Hc. unfold reader_discipline in Hd. rewrite Hc in Hd.
    apply Hd.
  - intros Hc. unfold reader_discipline, started in Hd, Hs.
    destruct (state g); [contradiction | exact Hd | congruence].
  - unfold reader_discipline, started in Hd, Hs.
    destruct (state g); [contradiction | lia | lia].
  - intros stream Hb Hl Hfirst. subst g0.
    destruct rs as [|r1 rs]; cbn [hd] in Hfirst; subst.
    + cbn [drive snd] in Hr.
      destruct (first_next response stream Hb Hl) as [_ Ha].
      now rewrite Hr in Ha.
    + cbn [drive] in Hr.
      destruct (first_next response stream Hb Hl) as [Hs1 Ha1].
      destruct (resume (parseSSEStream response) Next) as [res1 g1].
      cbn [snd] in Hs1, Ha1.
      destruct (drive_acquired rs g1 Hs1) as [Hs2 Ha2].
      destruct (drive g1 rs) as [ress g2]. cbn [snd] in *.
      pose proof (resume_acquired g2 r Hs2) as Ha3. rewrite Hr in Ha3.
      cbn [snd] in Ha3. congruence.
  - apply for_await_ends; assumption.
Qed.

(** The ways out: end-of-data, [return] after the sentinel, a rejected read
    (the consumer gets the rejection), a consumer that stops after the first
    chunk, and one that stops at the terminal chunk. *)
Lemma reader_released_once_witness :
  (let g := snd (drive (parseSSEStream
                          (sse_response [bytesq content_frame ++ lf]))
                       [Next; Next]) in
   state g = Completed /\ released g = 1%nat)
  /\
  (let g := snd (drive (parseSSEStream (sse_response [quiet_stream]))
                       [Next; Next; Next]) in
   state g = Completed /\ released g = 1%nat)
  /\
  (let d := drive (parseSSEStream failing_response) [Next; Next] in
   fst d = [IterValue (mk_chunk (VString (lit "a")) false);
            IterThrow (lit "network error")]
   /\ state (snd d) = Completed /\ released (snd d) = 1%nat)
  /\
  (let g := snd (drive (parseSSEStream (sse_response [quiet_stream]))
                       [Next; Return]) in
   state g = Completed /\ released g = 1%nat)
  /\
  (let g := snd (drive (parseSSEStream (sse_response [quiet_stream]))
                       [Next; Next; ThrowInto (lit "stop")]) in
   state g = Completed /\ released g = 1%nat).
Proof.
  split; [|split; [|split; [|split]]]; cbv zeta.
  - destruct (reader_released_once
                (sse_response [bytesq content_frame ++ lf]) [Next] Next
                _ _ eq_refl) as (Hn & _ & Hc & _ & _ & Ha & _).
    pose proof (Hn I) as Hs. split; [exact Hs|].
    exact (eq_trans (Hc Hs) (Ha _ eq_refl eq_refl eq_refl)).
  - destruct (reader_released_once (sse_response [quiet_stream])
                [Next; Next] Next _ _ eq_refl)
      as (Hn & _ & Hc & _ & _ & Ha & _).
    pose proof (Hn I) as Hs. split; [exact Hs|].
    exact (eq_trans (Hc Hs) (Ha _ eq_refl eq_refl eq_refl)).
  - split; [reflexivity|].
    destruct (reader_released_once failing_response [Next] Next
                _ _ eq_refl) as (Hn & _ & Hc & _ & _ & Ha & _).
    pose proof (Hn I) as Hs. split; [exact Hs|].
    exact (eq_trans (Hc Hs) (Ha _ eq_refl eq_refl eq_refl)).
  - destruct (reader_released_once (sse_response [quiet_stream])
                [Next] Return _ _ eq_refl)
      as (_ & Hret & Hc & _ & _ & Ha & _).
    destruct (Hret eq_refl) as [_ Hs]. split; [exact Hs|].
    exact (eq_trans (Hc Hs) (Ha _ eq_refl eq_refl eq_refl)).
  - destruct (reader_released_once (sse_response [quiet_stream])
                [Next; Next] (ThrowInto (lit "stop")) _ _ eq_refl)
      as (Hn & _ & Hc & _ & _ & Ha & _).
    pose proof (Hn I) as Hs. split; [exact Hs|].
    exact (eq_trans (Hc Hs) (Ha _ eq_refl eq_refl eq_refl)).
Defined.

(** A [throw()] into the generator suspended at a content chunk is swallowed
    by the inner [catch]: the loop goes on with the next line. *)
Example throw_is_swallowed :
  fst (drive (parseSSEStream (sse_response [quiet_stream]))
             [Next; ThrowInto (lit "stop"); Next]) =
  [IterValue (mk_chunk (VString (lit "a")) false); IterValue terminal;
   IterDone].
Proof. reflexivity. Qed.

Example throw_after_finish :
  fst (drive (parseSSEStream (sse_response [finish_then_done]))
             [Next; Next; ThrowInto (lit "stop"); Next]) =
  [IterValue (mk_chunk (VString (lit "Hi")) false); IterValue terminal;
   IterValue terminal; IterDone].
Proof. reflexivity. Qed.

(** *** Iterating to the end *)

(** X7. The consumer that iterates to the end receives the chunks of
    [consume], sees the loop end as [consume] says, and leaves the generator
    completed with every acquired reader released. *)
Lemma for_await_consume (response : Response) (fuel : nat) :
  (length (chunks response) < fuel)%nat ->
  exists g,
    for_await fuel (parseSSEStream response) =
    (chunks response, Some (snd (consume response)), g)
    /\ state g = Completed /\ released g = acquired g.
Proof.
  unfold chunks, consume, parseSSEStream. intros Hf.
  destruct fuel as [|fuel]; [lia|]. cbn [for_await resume state].
  destruct (body response) as [stream|]; [|eexists; now split].
  destruct (locked stream); [eexists; now split|].
  cbn [acquired released].
  destruct (read_loop (reads stream) new_TextDecoder []) as [c n t | c] eqn:E.
  - cbn [run collect] in *. destruct (collect n) as [cs r] eqn:En.
    cbn [fst snd length] in *.
    pose proof (for_await_collect n t 1 0 fuel) as H. rewrite En in H.
    cbn [fst snd] in H. rewrite H by lia. eexists. now split.
  - cbn. destruct c; eexists; now split.
Qed.

(** ** The error classifier: the claims *)

(** [Number::toString] on some decimals: integers, fractions, the switch to
    an exponent at 21 digits and at six zeros, a decimal that is not a
    double, the least and the greatest doubles. *)
Example number_strings :
  map Number_toString
    [Dec false 42 0; Dec true 15 (-1); Dec false 1 (-1); Dec false 1 2;
     Dec false 1 20; Dec false 1 21; Dec false 1 (-6); Dec false 1 (-7);
     Dec false 9007199254740993 0; Dec false 30000000000000004 (-17);
     Dec false 1 23; Dec false 5 (-324); Dec false 2 (-324);
     Dec false 17976931348623157 292; Dec false 1 309; Dec true 0 0; NaN]
  = map lit
      ["42"; "-1.5"; "0.1"; "100"; "100000000000000000000"; "1e+21";
       "0.000001"; "1e-7"; "9007199254740992"; "0.30000000000000004";
       "1e+23"; "5e-324"; "0"; "1.7976931348623157e+308"; "Infinity"; "0";
       "NaN"]%string.
Proof. vm_compute. reflexivity. Qed.

(** [ToString] on structured values. *)
Example structured_strings :
  map ToString
    [VArray [VNumber (Dec false 1 0); VNull; VString (lit "a");
             VArray [VBool true; VUndefined]];
     VArray [];
     VObject [(lit "valueOf", VNumber (Dec false 0 0))];
     VObject [(lit "toString", VNumber (Dec false 0 0))];
     VArray [VString (lit "a"); VObject [(lit "toString", VNull)]]]
  = [Some (lit "1,,a,true,"); Some []; Some (lit "[object Object]");
     None; None].
Proof. vm_compute. reflexivity. Qed.

Lemma Error_message_string (s : jstring) :
  Error_message (VString s) = Some (VString s).
Proof. reflexivity. Qed.

Lemma Error_message_coalesce (v : value) (s : jstring) :
  Error_message (coalesce v (VString s)) =
  option_map VString (ToString (coalesce v (VString s))).
Proof. unfold coalesce. now destruct v. Qed.

(** What an error keeps as message is a string. *)
Lemma Error_message_is_string (v m : value) :
  Error_message v = Some m -> exists s, m = VString s.
Proof.
  unfold Error_message.
  destruct v; try (destruct (ToString _); cbn); intros [= <-]; eauto.
Qed.

(** [throwForStatus] in closed form: the error it throws, field by field,
    from the four locals, the status and the header; or the TypeError of
    the constructor of [Error]. *)
Lemma throwForStatus_fields (response : Response) :
  forall m c t d,
    read_envelope response = (m, c, t, d) ->
    throwForStatus response =
    match Error_message m with
    | Some text =>
        Throws (mk_error (documented_kind (status response)) text
                  (status response) c t
                  (if carries_details (status response) then d
                   else VUndefined)
                  (if status response =? 429
                   then retry_hint
                          (Headers_get (headers response) (lit "retry-after"))
                   else VUndefined))
    | None => ThrowsTypeError
    end.
Proof.
  intros m c t d H. unfold throwForStatus, documented_kind, carries_details.
  rewrite H.
  unfold new_AuthenticationError, new_PaymentRequiredError,
    new_ForbiddenError, new_NotFoundError, new_ValidationError,
    new_RateLimitError, new_ProviderError, new_ByokError.
  status_cases (status response);
    repeat match goal with
           | E : (status response =? _) = true |- _ =>
               apply Z.eqb_eq in E; rewrite E
           end;
    destruct (Error_message m); reflexivity.
Qed.

(** The error a call throws, when it throws one of the SDK's. *)
Lemma throwForStatus_thrown (response : Response) (e : ByokError) :
  throwForStatus response = Throws e ->
  exists m c t d text,
    read_envelope response = (m, c, t, d)
    /\ Error_message m = Some text
    /\ e = mk_error (documented_kind (status response)) text
             (status response) c t
             (if carries_details (status response) then d else VUndefined)
             (if status response =? 429
              then retry_hint
                     (Headers_get (headers response) (lit "retry-after"))
              else VUndefined).
Proof.
  intros He. destruct (read_envelope response) as [[[m c] t] d] eqn:E.
  rewrite (throwForStatus_fields response m c t d E) in He.
  destruct (Error_message m) as [text|] eqn:Em; [|discriminate].
  injection He as <-. now exists m, c, t, d, text.
Qed.

(** [throwForStatus] never returns. When the message can be converted to a
    string it throws one error, whose class depends on the status alone, as
    the table says, and whose [status] is the status of the response. *)
Lemma throwForStatus_outcome (response : Response) :
  (forall v, throwForStatus response <> Returns v)
  /\ (forall text,
        Error_message (envelope_message response) = Some text ->
        exists e,
          throwForStatus response = Throws e
          /\ name e = documented_kind (status response)
          /\ err_status e = status response
          /\ message e = text)
  /\ (Error_message (envelope_message response) = None ->
      throwForStatus response = ThrowsTypeError).
Proof.
  unfold envelope_message.
  destruct (read_envelope response) as [[[m c] t] d] eqn:E. cbn [fst].
  rewrite (throwForStatus_fields response m c t d E).
  split; [|split].
  - intros v. now destruct (Error_message m).
  - intros text ->. eexists. now split.
  - now intros ->.
Qed.

(** C2. The claim fails on the code at a response whose error message cannot
    be converted to a string. With status 401 and a body whose
    [error.message] is the object [{ toString: 0 }], the constructor of [Error],
    reached through [new AuthenticationError(message, ...)], throws a
    TypeError: [throwForStatus] does not return, but what it throws is not
    an [AuthenticationError], nor any other error of the SDK. *)
Theorem typed_error_missed :
  status unconvertible_message = 401
  /\ Response_json unconvertible_message =
     Some (VObject
             [(lit "error",
               VObject
                 [(lit "message",
                   VObject [(lit "toString", VNumber (Dec false 0 0))])])])
  /\ envelope_message unconvertible_message =
     VObject [(lit "toString", VNumber (Dec false 0 0))]
  /\ throwForStatus unconvertible_message = ThrowsTypeError
  /\ (forall e, throwForStatus unconvertible_message <> Throws e).
Proof. repeat split. discriminate. Qed.

Example retry_in_30_thrown :
  throwForStatus retry_in_30 =
  Throws (mk_error (lit "RateLimitError") (VString (lit "slow down")) 429
            (VString (lit "quota")) VUndefined VUndefined
            (VNumber (Dec false 30 0))).
Proof. reflexivity. Qed.

(** A message that is a number is kept as its decimal text. *)
Example number_message_thrown :
  throwForStatus number_message =
  Throws (mk_error (lit "ByokError") (VString (lit "42")) 500
            VUndefined VUndefined VUndefined VUndefined).
Proof. vm_compute. reflexivity. Qed.

(** *** The retry hint *)

Lemma take_digits_app (ds rest : jstring) :
  forallb is_digit ds = true ->
  match rest with
  | [] => True
  | c :: _ => is_digit c = false
  end ->
  take_digits (ds ++ rest) = (ds, rest).
Proof.
  intros Hds Hrest. induction ds as [|d ds IH]; cbn [app take_digits].
  - destruct rest as [|c rest]; [reflexivity|]. cbn. now rewrite Hrest.
  - cbn [forallb] in Hds. apply andb_prop in Hds as [Hd Hds].
    now rewrite Hd, (IH Hds).
Qed.

Lemma is_digit_not_space (d : Z) :
  is_digit d = true ->
  is_js_whitespace d = false /\ d <> 45 /\ d <> 43.
Proof.
  unfold is_digit, is_js_whitespace. intros H.
  apply andb_prop in H as [H1 H2].
  apply Z.leb_le in H1. apply Z.leb_le in H2.
  repeat split; lia.
Qed.

Lemma strip_sign_other (c : Z) (s : jstring) :
  c <> 45 -> c <> 43 -> strip_sign (c :: s) = (false, c :: s).
Proof.
  intros Hm Hp. unfold strip_sign.
  destruct c as [|p|p]; try reflexivity.
  do 6 (destruct p as [p|p|]; try reflexivity); congruence.
Qed.

(** [parseInt] on a numeral: white space, then a sign or none, then digits,
    then anything that is not a digit. A minus sign makes the integer
    negative. *)
Lemma parseInt10_numeral (ws sign ds rest : jstring) :
  forallb is_js_whitespace ws = true ->
  In sign [[]; [43]; [45]] ->
  ds <> [] -> forallb is_digit ds = true ->
  match rest with
  | [] => True
  | c :: _ => is_digit c = false
  end ->
  parseInt10 (ws ++ sign ++ ds ++ rest) =
  Dec (jstring_eqb sign [45]) (digits_value ds) 0.
Proof.
  intros Hws Hsign Hne Hds Hrest. destruct ds as [|d ds]; [contradiction|].
  pose proof Hds as Hd. cbn [forallb] in Hd. apply andb_prop in Hd as [Hd _].
  destruct (is_digit_not_space d Hd) as (Hw & Hm & Hp).
  unfold parseInt10, trimStart. rewrite (drop_while_app_all _ _ _ Hws).
  assert (Ht : take_digits ((d :: ds) ++ rest) = (d :: ds, rest))
    by exact (take_digits_app (d :: ds) rest Hds Hrest).
  cbn [In] in Hsign.
  destruct Hsign as [<- | [<- | [<- | []]]]; cbn [app drop_while].
  - rewrite Hw, (strip_sign_other d _ Hm Hp).
    change (d :: ds ++ rest) with ((d :: ds) ++ rest). now rewrite Ht.
  - change (is_js_whitespace 43) with false. cbn [strip_sign].
    change (d :: ds ++ rest) with ((d :: ds) ++ rest). now rewrite Ht.
  - change (is_js_whitespace 45) with false. cbn [strip_sign].
    change (d :: ds ++ rest) with ((d :: ds) ++ rest). now rewrite Ht.
Qed.

(** [parseInt] on a string that starts with neither white space, a sign nor
    a digit. *)
Lemma parseInt10_no_digit (c : Z) (s : jstring) :
  is_js_whitespace c = false -> c <> 45 -> c <> 43 -> is_digit c = false ->
  parseInt10 (c :: s) = NaN.
Proof.
  intros Hw Hm Hp Hd. unfold parseInt10, trimStart. cbn [drop_while].
  rewrite Hw, (strip_sign_other c s Hm Hp). cbn [take_digits].
  now rewrite Hd.
Qed.

(** The retry hint of a thrown [RateLimitError]: undefined when the response
    has no [retry-after] header or an empty one, and [parseInt(header, 10)]
    otherwise. *)
Lemma retry_after_hint (response : Response) (e : ByokError) :
  status response = 429 ->
  throwForStatus response = Throws e ->
  name e = lit "RateLimitError"
  /\ retryAfter e =
     match Headers_get (headers response) (lit "retry-after") with
     | None | Some [] => VUndefined
     | Some (c :: s) => VNumber (parseInt10 (c :: s))
     end.
Proof.
  intros Hst He.
  destruct (throwForStatus_thrown response e He)
    as (m & c & t & d & text & _ & _ & ->).
  rewrite Hst. split; [reflexivity|]. cbn [retryAfter Z.eqb Pos.eqb].
  unfold retry_hint.
  now destruct (Headers_get (headers response) (lit "retry-after"))
    as [[|c0 s]|].
Qed.

Example retry_after_negative :
  parseInt10 (lit "  -12 seconds") = Dec true 12 0.
Proof.
  exact (parseInt10_numeral (lit "  ") [45] (lit "12") (lit " seconds")
           eq_refl (or_intror (or_intror (or_introl eq_refl)))
           ltac:(discriminate) eq_refl eq_refl).
Qed.

(** C3. The claim fails on the code at a [retry-after] header that is not
    numeric. With status 429 and the header
    [Retry-After: Wed, 21 Oct 2015 07:28:00 GMT], the hint of the thrown
    [RateLimitError] is [parseInt] of the date, which is NaN, and not
    undefined. *)
Theorem retry_after_nan :
  Headers_get (headers retry_at_date) (lit "retry-after")
    = Some (lit "Wed, 21 Oct 2015 07:28:00 GMT")
  /\ throwForStatus retry_at_date =
     Throws (mk_error (lit "RateLimitError") (VString (lit "slow down")) 429
               (VString (lit "quota")) VUndefined VUndefined (VNumber NaN))
  /\ VNumber NaN <> VUndefined.
Proof. repeat split. discriminate. Qed.

(** *** The error envelope *)

Lemma opt_get_error (body v : value) :
  get body (lit "error") = v -> nullish v = false ->
  opt_get body (lit "error") = v.
Proof.
  intros Hv Hn. unfold opt_get. destruct (nullish body) eqn:Hb; [|exact Hv].
  destruct body; try discriminate Hb; cbn in Hv; subst v; discriminate.
Qed.

(** The four locals when [error] is a string that is not empty. *)
Lemma read_envelope_string (response : Response) (body : value) (s : jstring) :
  Response_json response = Some body ->
  get body (lit "error") = VString s -> s <> [] ->
  read_envelope response = (VString s, VUndefined, VUndefined, VUndefined).
Proof.
  intros Hj Hs Hne. unfold read_envelope.
  rewrite Hj, (opt_get_error _ _ Hs eq_refl), Hs.
  assert (Hts : truthy (VString s) = true).
  { cbn. apply negb_true_iff, jstring_eqb_neq. exact Hne. }
  now rewrite Hts.
Qed.

(** The four locals when [error] is an object. *)
Lemma read_envelope_object (response : Response) (body : value)
    (members : list (jstring * value)) :
  Response_json response = Some body ->
  get body (lit "error") = VObject members ->
  read_envelope response =
  (coalesce (get (VObject members) (lit "message"))
     (VString (default_message (status response))),
   get (VObject members) (lit "code"), get (VObject members) (lit "type"),
   get (VObject members) (lit "details")).
Proof.
  intros Hj Ho. unfold read_envelope.
  now rewrite Hj, (opt_get_error _ _ Ho eq_refl), Ho.
Qed.

(** Whatever the status, an [error.message] that is an object with a member
    named [toString] makes the constructor throw. *)
Lemma own_toString_throws (response : Response) (body x : value)
    (members ms : list (jstring * value)) :
  Response_json response = Some body ->
  get body (lit "error") = VObject members ->
  get (VObject members) (lit "message") = VObject ms ->
  own_property (lit "toString") ms = Some x ->
  throwForStatus response = ThrowsTypeError.
Proof.
  intros Hj Ho Hm Hx.
  rewrite (throwForStatus_fields response _ _ _ _
             (read_envelope_object response body members Hj Ho)).
  rewrite Error_message_coalesce. unfold coalesce. rewrite Hm.
  cbn [nullish ToString]. now rewrite Hx.
Qed.

(** C8, as amended. When the body of an error response parses as JSON:
    if its [error] is a string that is not empty, the thrown error has that
    string as message, and no code, type or details; if its [error] is an
    object, the message is the object's [message] converted to a string (a
    string is left as it is), and the string [BYOK API error (<status>)]
    when the object's [message] is missing or null, code and type are the
    object's, and details are the object's on a [ValidationError] and on
    the base class, undefined on the other classes. *)
Theorem error_envelope (response : Response) (body : value) :
  Response_json response = Some body ->
  (forall s,
     get body (lit "error") = VString s -> s <> [] ->
     exists e,
       throwForStatus response = Throws e
       /\ message e = VString s /\ code e = VUndefined
       /\ type e = VUndefined /\ details e = VUndefined)
  /\ (forall members text,
        get body (lit "error") = VObject members ->
        ToString (coalesce (get (VObject members) (lit "message"))
                    (VString (default_message (status response))))
          = Some text ->
        exists e,
          throwForStatus response = Throws e
          /\ message e = VString text
          /\ code e = get (VObject members) (lit "code")
          /\ type e = get (VObject members) (lit "type")
          /\ details e =
               if carries_details (status response)
               then get (VObject members) (lit "details") else VUndefined)
  /\ (forall members m,
        get body (lit "error") = VObject members ->
        get (VObject members) (lit "message") = VString m ->
        exists e,
          throwForStatus response = Throws e /\ message e = VString m)
  /\ (forall members,
        get body (lit "error") = VObject members ->
        nullish (get (VObject members) (lit "message")) = true ->
        exists e,
          throwForStatus response = Throws e
          /\ message e = VString (default_message (status response))).
Proof.
  intros Hj.
  assert (Hobj : forall members text,
    get body (lit "error") = VObject members ->
    ToString (coalesce (get (VObject members) (lit "message"))
                (VString (default_message (status response)))) = Some text ->
    exists e,
      throwForStatus response = Throws e
      /\ message e = VString text
      /\ code e = get (VObject members) (lit "code")
      /\ type e = get (VObject members) (lit "type")
      /\ details e =
           if carries_details (status response)
           then get (VObject members) (lit "details") else VUndefined).
  { intros members text Ho Ht.
    rewrite (throwForStatus_fields response _ _ _ _
               (read_envelope_object response body members Hj Ho)).
    rewrite Error_message_coalesce, Ht. cbn [option_map].
    eexists. split; [reflexivity|]. now repeat split. }
  split; [|split; [exact Hobj|split]].
  - intros s Hs Hne.
    rewrite (throwForStatus_fields response _ _ _ _
               (read_envelope_string response body s Hj Hs Hne)).
    rewrite Error_message_string. eexists. split; [reflexivity|].
    cbn [message code type details]. repeat split.
    now destruct (carries_details (status response)).
  - intros members m Ho Hm.
    destruct (Hobj members m Ho) as (e & He & Hme & _).
    { unfold coalesce. now rewrite Hm. }
    now exists e.
  - intros members Ho Hn.
    destruct (Hobj members (default_message (status response)) Ho)
      as (e & He & Hme & _).
    { unfold coalesce. now rewrite Hn. }
    now exists e.
Qed.

Lemma error_envelope_witness :
  (exists e,
     throwForStatus string_error = Throws e
     /\ message e = VString (lit "no such player")
     /\ code e = VUndefined /\ type e = VUndefined /\ details e = VUndefined)
  /\
  (exists e,
     throwForStatus retry_in_30 = Throws e
     /\ message e = VString (lit "slow down")
     /\ code e = VString (lit "quota"))
  /\
  (exists e,
     throwForStatus number_message = Throws e
     /\ message e = VString (lit "42")).
Proof.
  split; [|split].
  - apply (proj1 (error_envelope string_error _ eq_refl)
             (lit "no such player")); [reflexivity | discriminate].
  - destruct (proj1 (proj2 (error_envelope retry_in_30 _ eq_refl))
                _ (lit "slow down") eq_refl eq_refl)
      as (e & He & Hm & Hc & _).
    exists e. now repeat split.
  - destruct (proj1 (proj2 (error_envelope number_message _ eq_refl))
                _ (lit "42") eq_refl eq_refl)
      as (e & He & Hm & _).
    exists e. now split.
Defined.

(** C8 as stated fails: when [error] is the empty string, the message is not
    that string but the default one. *)
Lemma empty_error_string :
  Response_json empty_error = Some (VObject [(lit "error", VString [])])
  /\ exists e,
       throwForStatus empty_error = Throws e
       /\ message e = VString (lit "BYOK API error (500)")
       /\ message e <> VString [].
Proof.
  split; [reflexivity|]. eexists. split; [reflexivity|].
  split; [reflexivity | discriminate].
Qed.

(** ** Further properties of the stream decoder *)

Lemma drive_completed (rs : list request) (g : generator) :
  state g = Completed ->
  snd (drive g rs) = g /\ Forall no_value (fst (drive g rs)).
Proof.
  intros Hg. induction rs as [|r rs [IH1 IH2]]; [now split|].
  cbn [drive]. unfold resume. rewrite Hg.
  destruct r; destruct (drive g rs) as [ress g2]; cbn [fst snd] in *;
    subst g2; (split; [reflexivity|]); constructor; cbn; auto.
Qed.

(** X1. A response without a body gives no chunk and no error, whatever the
    consumer asks of the generator, and no reader is acquired or released. *)
Theorem no_body_no_chunks (response : Response) (rs : list request) :
  body response = None ->
  consume response = ([], Normal)
  /\ Forall no_value (fst (drive (parseSSEStream response) rs))
  /\ acquired (snd (drive (parseSSEStream response) rs)) = 0%nat
  /\ released (snd (drive (parseSSEStream response) rs)) = 0%nat.
Proof.
  intros Hb. split; [unfold consume; now rewrite Hb|].
  destruct rs as [|r rs]; [cbn; auto|].
  cbn [drive]. unfold resume, parseSSEStream. cbn [state acquired released].
  rewrite Hb.
  assert (H : forall res,
    no_value res ->
    let d := let '(ress, g2) := drive (mk_generator Completed 0 0) rs in
             (res :: ress, g2) in
    Forall no_value (fst d) /\ acquired (snd d) = 0%nat
    /\ released (snd d) = 0%nat).
  { intros res Hres.
    destruct (drive_completed rs (mk_generator Completed 0 0) eq_refl)
      as [H1 H2].
    destruct (drive (mk_generator Completed 0 0) rs) as [ress g2].
    cbn [fst snd] in *. subst g2. repeat split. now constructor. }
  destruct r; apply H; exact I.
Qed.

Lemma no_body_no_chunks_witness :
  consume (mk_response 204 (lit "No Content") [] None) = ([], Normal)
  /\ Forall no_value
       (fst (drive (parseSSEStream
                      (mk_response 204 (lit "No Content") [] None))
                   [Next; Next; Return]))
  /\ acquired (snd (drive (parseSSEStream
                             (mk_response 204 (lit "No Content") [] None))
                          [Next; Next; Return])) = 0%nat
  /\ released (snd (drive (parseSSEStream
                             (mk_response 204 (lit "No Content") [] None))
                          [Next; Next; Return])) = 0%nat.
Proof.
  apply (no_body_no_chunks (mk_response 204 (lit "No Content") [] None)
           [Next; Next; Return]).
  reflexivity.
Defined.

(** A line that is not a data line changes nothing. *)
Lemma for_lines_other (l : jstring) (rest : list jstring) (k : Gen) :
  data_of l = None -> for_lines (l :: rest) k = for_lines rest k.
Proof.
  unfold data_of. intros H. cbn [for_lines].
  destruct (jstring_eqb (trim l) []); [reflexivity|].
  now destruct (startsWith (trim l) (lit "data: ")).
Qed.

(** Taking a complete line out of a text, when the line changes nothing. *)
Lemma consume_without_line
    (segments segments' : list (list byte)) (a l b : jstring) :
  stream_text segments = a ++ l ++ 10 :: b ->
  stream_text segments' = a ++ b ->
  line_aligned a -> one_line l = true ->
  (forall k, for_lines [l] k = k) ->
  consume (sse_response segments) = consume (sse_response segments').
Proof.
  intros Hs Hs' Ha Hl Hk. rewrite !consume_text, Hs, Hs'.
  rewrite (text_gen_prefix a _ Ha), (text_gen_prefix a b Ha).
  now rewrite (text_gen_line l b Hl), Hk.
Qed.

(** X2. A complete line that does not start, once trimmed, with [data: ] (a
    blank line, a comment, an [event:] or [id:] field, [data:] without the
    space) adds nothing: the stream yields what it yields without it. *)
Theorem other_lines_ignored
    (segments segments' : list (list byte)) (a l b : jstring) :
  stream_text segments = a ++ l ++ 10 :: b ->
  stream_text segments' = a ++ b ->
  line_aligned a -> one_line l = true ->
  data_of l = None ->
  consume (sse_response segments) = consume (sse_response segments').
Proof.
  intros Hs Hs' Ha Hl Hd.
  apply (consume_without_line segments segments' a l b Hs Hs' Ha Hl).
  intros k. now apply for_lines_other.
Qed.

Lemma other_lines_ignored_witness :
  consume (sse_response
             [bytesq ": keep-alive" ++ lf;
              bytesq "event: message" ++ lf ++ bytesq "data:{}" ++ lf
              ++ bytesq content_frame ++ lf])
  = consume (sse_response [bytesq content_frame ++ lf]).
Proof.
  transitivity
    (consume (sse_response
                [bytesq "event: message" ++ lf ++ bytesq "data:{}" ++ lf
                 ++ bytesq content_frame ++ lf])).
  - apply (other_lines_ignored _ _ [] (lit ": keep-alive")
             (lit "event: message" ++ [10] ++ lit "data:{}" ++ [10]
              ++ litq content_frame ++ [10])); reflexivity.
  - transitivity
      (consume (sse_response
                  [bytesq "data:{}" ++ lf ++ bytesq content_frame ++ lf])).
    + apply (other_lines_ignored _ _ [] (lit "event: message")
               (lit "data:{}" ++ [10] ++ litq content_frame ++ [10]));
        reflexivity.
    + apply (other_lines_ignored _ _ [] (lit "data:{}")
               (litq content_frame ++ [10])); reflexivity.
Defined.

(** X3. A complete data line whose payload is JSON text with neither a truthy
    [choices[0].delta.content] nor a truthy [choices[0].finish_reason] adds
    nothing. *)
Theorem empty_delta_ignored
    (segments segments' : list (list byte)) (a l b data : jstring)
    (parsed : value) :
  stream_text segments = a ++ l ++ 10 :: b ->
  stream_text segments' = a ++ b ->
  line_aligned a -> one_line l = true ->
  data_of l = Some data -> JSON_parse data = Some parsed ->
  truthy (opt_get (opt_get (choice0 parsed) (lit "delta")) (lit "content"))
    = false ->
  truthy (opt_get (choice0 parsed) (lit "finish_reason")) = false ->
  consume (sse_response segments) = consume (sse_response segments').
Proof.
  intros Hs Hs' Ha Hl Hd Hp Hc Hf.
  apply (consume_without_line segments segments' a l b Hs Hs' Ha Hl).
  intros k. rewrite (for_lines_parsed l data parsed [] k Hd Hp). cbv zeta.
  now rewrite Hc, Hf.
Qed.

Lemma empty_delta_ignored_witness :
  consume (sse_response
             [bytesq "data: {'choices':[{'delta':{'role':'assistant'},"
              ++ bytesq "'finish_reason':null}]}" ++ lf
              ++ bytesq content_frame ++ lf])
  = consume (sse_response [bytesq content_frame ++ lf]).
Proof.
  apply (empty_delta_ignored _ _ []
           (litq "data: {'choices':[{'delta':{'role':'assistant'},"
            ++ litq "'finish_reason':null}]}")
           (litq content_frame ++ [10])
           (litq "{'choices':[{'delta':{'role':'assistant'},"
            ++ litq "'finish_reason':null}]}")
           (VObject
              [(lit "choices",
                VArray
                  [VObject
                     [(lit "delta",
                       VObject [(lit "role", VString (lit "assistant"))]);
                      (lit "finish_reason", VNull)]])]));
    reflexivity.
Defined.

(** X4. A complete data line whose payload has a truthy
    [choices[0].delta.content] and no truthy finish reason, reached before
    the sequence has ended, yields that content in one chunk with [done]
    unset, between the chunks of what precedes and of what follows. *)
Theorem content_line_chunk
    (segments : list (list byte)) (a l b data : jstring) (parsed : value) :
  stream_text segments = a ++ l ++ 10 :: b ->
  line_aligned a -> one_line l = true ->
  data_of l = Some data -> JSON_parse data = Some parsed ->
  truthy (opt_get (opt_get (choice0 parsed) (lit "delta")) (lit "content"))
    = true ->
  truthy (opt_get (choice0 parsed) (lit "finish_reason")) = false ->
  none_done (text_chunks a) = true ->
  chunks (sse_response segments) =
  text_chunks a
  ++ [mk_chunk (get (opt_get (choice0 parsed) (lit "delta")) (lit "content"))
        false]
  ++ text_chunks b.
Proof.
  intros Hs Ha Hl Hd Hp Hc Hf Hn.
  rewrite chunks_text, Hs. unfold text_chunks in *.
  rewrite (collect_text_gen_app a _ Ha), (text_gen_line l b Hl).
  rewrite (for_lines_parsed l data parsed [] _ Hd Hp). cbv zeta.
  rewrite Hc, Hf. cbn [for_lines collect].
  destruct (collect (text_gen a)) as [cs r]. cbn [fst] in *. rewrite Hn.
  now destruct (collect (text_gen b)).
Qed.

Lemma content_line_chunk_witness :
  chunks (sse_response [noisy_stream]) =
  [] ++ [mk_chunk (VString (lit "a")) false] ++ [terminal].
Proof.
  apply (content_line_chunk [noisy_stream] [] (litq content_frame)
           (lit "data: {oops" ++ [10] ++ lit "data: [DONE]" ++ [10])
           (skipn 6 (litq content_frame))
           (VObject
              [(lit "choices",
                VArray
                  [VObject
                     [(lit "delta",
                       VObject [(lit "content", VString (lit "a"))])]])]));
    reflexivity.
Defined.

Lemma startsWith_skipn (t p : jstring) :
  startsWith t p = true -> t = p ++ skipn (length p) t.
Proof.
  revert t. induction p as [|a p IH]; intros t H; [reflexivity|].
  destruct t as [|b t]; [discriminate H|]. cbn [startsWith] in H.
  apply andb_prop in H as [Hab H]. apply Z.eqb_eq in Hab. subst b.
  cbn [length skipn app]. now rewrite <- (IH t H).
Qed.

Lemma remaining_buffer_other (l : jstring) :
  trim l <> lit "data: [DONE]" -> remaining_buffer l = Leave Normal.
Proof.
  intros H. unfold remaining_buffer.
  destruct (startsWith (trim l) (lit "data: ")) eqn:Hs; [|reflexivity].
  destruct (jstring_eqb (slice 6 (trim l)) (lit "[DONE]")) eqn:Hd;
    [|reflexivity].
  exfalso. apply H. apply jstring_eqb_eq in Hd.
  rewrite (startsWith_skipn _ _ Hs). unfold slice in Hd.
  change (length (lit "data: ")) with 6%nat. now rewrite Hd.
Qed.

(** X5. What follows the last line feed when the data ends is dropped, unless
    it is the sentinel: a last line without its line feed yields nothing,
    even when it is a complete content frame. *)
Theorem dangling_line_dropped
    (segments segments' : list (list byte)) (p l : jstring) :
  stream_text segments = p ++ l ->
  stream_text segments' = p ->
  line_aligned p -> one_line l = true ->
  trim l <> lit "data: [DONE]" ->
  consume (sse_response segments) = consume (sse_response segments').
Proof.
  intros Hs Hs' Hp Hl Hd. rewrite !consume_text, Hs, Hs'.
  rewrite (text_gen_prefix p l Hp), (text_gen_aligned p Hp).
  unfold text_gen at 1. rewrite (split_lf_one_line l Hl).
  cbn [removelast last for_lines]. now rewrite (remaining_buffer_other l Hd).
Qed.

Lemma dangling_line_dropped_witness :
  consume (sse_response
             [bytesq content_frame ++ lf; bytesq finish_frame])
  = consume (sse_response [bytesq content_frame ++ lf]).
Proof.
  apply (dangling_line_dropped _ _ (litq content_frame ++ [10])
           (litq finish_frame)); try reflexivity.
  discriminate.
Defined.

(** X6. A stream made of a first part that ends with a line feed and a
    second part yields the chunks of the first part and then, unless the
    first part ended the sequence, those of the second. *)
Theorem chunks_of_concatenation
    (segments sa sb : list (list byte)) (a b : jstring) :
  stream_text segments = a ++ b ->
  stream_text sa = a -> stream_text sb = b ->
  line_aligned a ->
  chunks (sse_response segments) =
  if none_done (chunks (sse_response sa))
  then chunks (sse_response sa) ++ chunks (sse_response sb)
  else chunks (sse_response sa).
Proof.
  intros Hs Hsa Hsb Ha. rewrite !chunks_text, Hs, Hsa, Hsb.
  unfold text_chunks. rewrite (collect_text_gen_app a b Ha).
  destruct (collect (text_gen a)) as [cs r]. cbn [fst].
  now destruct (none_done cs).
Qed.

Lemma chunks_of_concatenation_witness :
  chunks (sse_response [bytesq content_frame ++ lf ++ finish_then_done]) =
  if none_done (chunks (sse_response [bytesq content_frame ++ lf]))
  then chunks (sse_response [bytesq content_frame ++ lf])
       ++ chunks (sse_response [finish_then_done])
  else chunks (sse_response [bytesq content_frame ++ lf]).
Proof.
  apply (chunks_of_concatenation _ _ _ (litq content_frame ++ [10])
           (litq finish_frame ++ [10; 10] ++ lit "data: [DONE]" ++ [10; 10]));
    reflexivity.
Defined.

(** [for_await_consume] at a stream: four iterations are enough for its two
    chunks. *)
Lemma for_await_consume_witness :
  exists g,
    for_await 4 (parseSSEStream (sse_response cafe_pieces)) =
    (chunks (sse_response cafe_pieces),
     Some (snd (consume (sse_response cafe_pieces))), g)
    /\ state g = Completed /\ released g = acquired g.
Proof.
  apply (for_await_consume (sse_response cafe_pieces) 4). cbn. lia.
Defined.

(** *** A read that is rejected *)

Lemma read_loop_prefix (segments : list (list byte)) (rs : list read_result) :
  forall (d : TextDecoder) (buffer : jstring),
    one_line buffer = true ->
    read_loop (map Value segments ++ rs) d buffer =
    let '(d', text) := decode d (concat segments) in
    for_lines (removelast (split_lf (buffer ++ text)))
      (read_loop rs d' (last (split_lf (buffer ++ text)) [])).
Proof.
  induction segments as [|v segments IH]; intros d buffer Hb.
  - cbn [map app concat decode]. rewrite app_nil_r.
    now rewrite (split_lf_one_line buffer Hb).
  - cbn [map app read_loop concat]. rewrite decode_app.
    destruct (decode d v) as [d1 t1].
    rewrite (IH d1 _ (last_split_lf_one_line (buffer ++ t1))).
    destruct (decode d1 (concat segments)) as [d2 t2].
    rewrite (app_assoc buffer t1 t2).
    rewrite (split_lf_app (buffer ++ t1) t2).
    rewrite removelast_app_nonempty by apply split_lf_nonempty.
    rewrite last_app_nonempty by apply split_lf_nonempty.
    now rewrite for_lines_app.
Qed.

(** X8. When a read is rejected, the consumer has received the chunks of the
    complete lines read so far and then gets the rejection; what was left in
    the buffer is lost. When those lines had already ended the sequence, the
    rejected read is never made and the sequence ends normally. *)
Theorem rejected_read
    (segments : list (list byte)) (e : reason) (rest : list read_result) :
  consume (broken_response segments e rest) =
  (lines_chunks (stream_text segments),
   if none_done (lines_chunks (stream_text segments))
   then Throw e else Normal).
Proof.
  unfold consume, broken_response, lines_chunks, stream_text.
  cbn [body locked reads].
  rewrite (read_loop_prefix segments (Rejected e :: rest) _ [] eq_refl).
  destruct (decode new_TextDecoder (concat segments)) as [d' text].
  cbn [app snd read_loop]. rewrite collect_for_lines.
  pose proof (for_lines_normal (removelast (split_lf text)) (Leave Normal)
                eq_refl) as Hn.
  destruct (collect (for_lines (removelast (split_lf text)) (Leave Normal)))
    as [cs r]. cbn [fst snd] in *. subst r.
  destruct (none_done cs); [|reflexivity].
  cbn [collect fst snd]. now rewrite app_nil_r.
Qed.

Example rejected_read_after_content :
  consume failing_response =
  ([mk_chunk (VString (lit "a")) false], Throw (lit "network error")).
Proof. reflexivity. Qed.

(** ** Further properties of the error classifier *)

(** X9. When the body of the response is not JSON text (or cannot be read),
    the message of the thrown error is the status text of the response, and
    [BYOK API error (<status>)] when the status text is empty; the error has
    no code, type or details. *)
Theorem body_not_json (response : Response) :
  Response_json response = None ->
  exists e,
    throwForStatus response = Throws e
    /\ message e =
         VString (match statusText response with
                  | [] => default_message (status response)
                  | _ :: _ => statusText response
                  end)
    /\ code e = VUndefined /\ type e = VUndefined
    /\ details e = VUndefined.
Proof.
  intros Hj.
  assert (E : read_envelope response =
              (VString (match statusText response with
                        | [] => default_message (status response)
                        | _ :: _ => statusText response
                        end), VUndefined, VUndefined, VUndefined)).
  { unfold read_envelope. rewrite Hj. now destruct (statusText response). }
  rewrite (throwForStatus_fields response _ _ _ _ E), Error_message_string.
  eexists. split; [reflexivity|]. cbn [message code type details].
  repeat split. now destruct (carries_details (status response)).
Qed.

Lemma body_not_json_witness :
  exists e,
    throwForStatus
      (error_response 503 "Service Unavailable" [] (bytesq "<html>")) =
    Throws e
    /\ message e = VString (lit "Service Unavailable")
    /\ code e = VUndefined /\ type e = VUndefined
    /\ details e = VUndefined.
Proof.
  apply (body_not_json
           (error_response 503 "Service Unavailable" [] (bytesq "<html>"))).
  reflexivity.
Defined.

(** X10. When the body is JSON text whose [error] is neither a non-empty
    string nor an object (it is missing, null, false, 0, the empty string, or
    true, a number, an array), the message is [BYOK API error (<status>)],
    whatever the status text, and the error has no code, type or details. *)
Theorem no_usable_error (response : Response) (body : value) :
  Response_json response = Some body ->
  match get body (lit "error") with
  | VString (_ :: _) | VObject _ => False
  | _ => True
  end ->
  exists e,
    throwForStatus response = Throws e
    /\ message e = VString (default_message (status response))
    /\ code e = VUndefined /\ type e = VUndefined
    /\ details e = VUndefined.
Proof.
  intros Hj Herr.
  assert (E : read_envelope response =
              (VString (default_message (status response)),
               VUndefined, VUndefined, VUndefined)).
  { unfold read_envelope. rewrite Hj.
    assert (Hopt : opt_get body (lit "error") = get body (lit "error")).
    { unfold opt_get. now destruct body. }
    rewrite Hopt.
    destruct (get body (lit "error")) as [| |b|n|s|l|ms];
      try contradiction;
      try (destruct (truthy _); reflexivity).
    destruct s; [reflexivity | contradiction]. }
  rewrite (throwForStatus_fields response _ _ _ _ E), Error_message_string.
  eexists. split; [reflexivity|]. cbn [message code type details].
  repeat split. now destruct (carries_details (status response)).
Qed.

Lemma no_usable_error_witness :
  exists e,
    throwForStatus
      (error_response 500 "Internal Server Error" []
         (bytesq "{'error':['a','b'],'message':'ignored'}")) = Throws e
    /\ message e = VString (default_message 500)
    /\ code e = VUndefined /\ type e = VUndefined
    /\ details e = VUndefined.
Proof.
  apply (no_usable_error
           (error_response 500 "Internal Server Error" []
              (bytesq "{'error':['a','b'],'message':'ignored'}"))
           (VObject
              [(lit "error",
                VArray [VString (lit "a"); VString (lit "b")]);
               (lit "message", VString (lit "ignored"))]));
    [reflexivity | exact I].
Defined.

(** The [message] local is never undefined or null. *)
Lemma envelope_message_not_nullish (response : Response) :
  nullish (envelope_message response) = false.
Proof.
  unfold envelope_message, read_envelope.
  destruct (Response_json response) as [body|].
  - destruct (truthy (opt_get body (lit "error"))); [|reflexivity].
    cbn [fst]. unfold coalesce.
    now destruct (nullish (get _ (lit "message"))) eqn:Hn.
  - cbn [fst]. now destruct (truthy (VString (statusText response))).
Qed.

(** X11. The message handed to the error is never undefined or null, and
    neither is the message the error keeps. *)
Theorem message_never_nullish (response : Response) (e : ByokError) :
  throwForStatus response = Throws e ->
  nullish (message e) = false
  /\ nullish (envelope_message response) = false.
Proof.
  intros He. split; [|apply envelope_message_not_nullish].
  destruct (throwForStatus_thrown response e He)
    as (m & c & t & d & text & _ & Hm & ->).
  destruct (Error_message_is_string m text Hm) as [s ->]. reflexivity.
Qed.

Lemma message_never_nullish_witness :
  nullish
    (message
       (mk_error (lit "ByokError") (VString (default_message 400)) 400
          VUndefined VUndefined VUndefined VUndefined)) = false
  /\ nullish
       (envelope_message
          (error_response 400 "" [] (bytesq "{'error':{'message':null}}")))
     = false.
Proof.
  apply (message_never_nullish
           (error_response 400 "" [] (bytesq "{'error':{'message':null}}"))).
  reflexivity.
Defined.

(** X12. Only a [RateLimitError] carries a retry hint: for a status other
    than 429 [retryAfter] is undefined, whatever the [retry-after] header. *)
Theorem retry_hint_only_on_429 (response : Response) (e : ByokError) :
  status response <> 429 ->
  throwForStatus response = Throws e ->
  retryAfter e = VUndefined.
Proof.
  intros Hst He. apply Z.eqb_neq in Hst.
  destruct (throwForStatus_thrown response e He)
    as (m & c & t & d & text & _ & _ & ->).
  cbn [retryAfter]. now rewrite Hst.
Qed.

Lemma retry_hint_only_on_429_witness :
  retryAfter
    (mk_error (lit "ByokError") (VString (default_message 503)) 503
       VUndefined VUndefined VUndefined VUndefined) = VUndefined.
Proof.
  apply (retry_hint_only_on_429
           (error_response 503 "Service Unavailable"
              [(lit "Retry-After", lit "120")] (bytesq "{}"))).
  - discriminate.
  - reflexivity.
Defined.

(** X13. The class of the thrown error tells the status back: each subclass
    stands for its one status, and the base class for none of the seven. *)
Theorem class_tells_status (response : Response) (e : ByokError) :
  throwForStatus response = Throws e ->
  (name e = lit "AuthenticationError" <-> status response = 401)
  /\ (name e = lit "PaymentRequiredError" <-> status response = 402)
  /\ (name e = lit "ForbiddenError" <-> status response = 403)
  /\ (name e = lit "NotFoundError" <-> status response = 404)
  /\ (name e = lit "ValidationError" <-> status response = 422)
  /\ (name e = lit "RateLimitError" <-> status response = 429)
  /\ (name e = lit "ProviderError" <-> status response = 502)
  /\ (name e = lit "ByokError" <->
      ~ In (status response) [401; 402; 403; 404; 422; 429; 502]).
Proof.
  intros He.
  destruct (throwForStatus_thrown response e He)
    as (m & c & t & d & text & _ & _ & ->).
  cbn [name]. unfold documented_kind.
  status_cases (status response);
    repeat match goal with
           | H : (_ =? _) = true |- _ => apply Z.eqb_eq in H
           | H : (_ =? _) = false |- _ => apply Z.eqb_neq in H
           end;
    cbn [In];
    repeat split; intros; try discriminate; try lia; try reflexivity;
    try (intros Hin; lia);
    try (exfalso; intuition lia).
Qed.

Lemma class_tells_status_witness :
  name
    (mk_error (lit "RateLimitError") (VString (lit "slow down")) 429
       (VString (lit "quota")) VUndefined VUndefined
       (VNumber (Dec false 30 0))) = lit "RateLimitError"
  <-> status retry_in_30 = 429.
Proof.
  exact (proj1 (proj2 (proj2 (proj2 (proj2 (proj2
           (class_tells_status retry_in_30 _ eq_refl))))))).
Defined.

(** ** The client and the wrappers *)

Lemma drop_while_head (p : Z -> bool) (l : jstring) (c : Z) (t : jstring) :
  drop_while p l = c :: t -> p c = false.
Proof.
  induction l as [|x l IH]; cbn [drop_while]; [discriminate|].
  destruct (p x) eqn:Hx; [exact IH|]. now intros [= <- _].
Qed.

Lemma drop_while_fixed (p : Z -> bool) (l : jstring) :
  drop_while p (drop_while p l) = drop_while p l.
Proof.
  destruct (drop_while p l) as [|c t] eqn:E; [reflexivity|].
  cbn [drop_while]. now rewrite (drop_while_head p l c t E).
Qed.

Lemma drop_while_taken (l : jstring) :
  exists n, l = repeat 47 n ++ drop_while (fun c => c =? 47) l.
Proof.
  induction l as [|x l [n IH]]; [now exists 0%nat|]. cbn [drop_while].
  destruct (x =? 47) eqn:Hx; [|now exists 0%nat].
  apply Z.eqb_eq in Hx. subst x. exists (S n). cbn [repeat app].
  now rewrite <- IH.
Qed.

Lemma rev_repeat_same (x : Z) (n : nat) : rev (repeat x n) = repeat x n.
Proof.
  induction n as [|n IH]; [reflexivity|]. cbn [repeat rev]. rewrite IH.
  clear IH. induction n as [|n IH]; [reflexivity|].
  cbn [repeat app]. now rewrite IH.
Qed.

(** X14. The base URL the client keeps is the configured one, or
    [https://byok.gg] when none is given, without its trailing slashes, all
    of them and nothing else: it never ends with a slash, so an endpoint URL
    has a single slash before [api]. *)
Theorem base_url_normalised (config : ByokClientConfig) :
  let given :=
    match cfg_baseUrl config with
    | Some u => u
    | None => DEFAULT_BASE_URL
    end in
  let b := baseUrl (ByokClient_shared config) in
  (exists n, given = b ++ repeat 47 n)
  /\ (forall x, b <> x ++ [47])
  /\ (forall x, state_url (ByokClient_shared config)
                <> x ++ lit "//api/v1/state")
  /\ strip_trailing_slashes b = b.
Proof.
  cbv zeta. cbn [ByokClient_shared baseUrl]. unfold state_url.
  cbn [baseUrl].
  set (given := match cfg_baseUrl config with
                | Some u => u
                | None => DEFAULT_BASE_URL
                end).
  unfold strip_trailing_slashes.
  assert (Hend : forall x,
    rev (drop_while (fun c => c =? 47) (rev given)) <> x ++ [47]).
  { intros x H. apply (f_equal (@rev Z)) in H.
    rewrite rev_involutive, rev_app_distr in H. cbn in H.
    now apply drop_while_head in H. }
  repeat split.
  - destruct (drop_while_taken (rev given)) as [n Hn]. exists n.
    rewrite <- (rev_involutive given) at 1. rewrite Hn at 1.
    now rewrite rev_app_distr, rev_repeat_same.
  - exact Hend.
  - intros x H. apply (Hend x).
    change (lit "//api/v1/state") with ([47] ++ lit "/api/v1/state") in H.
    rewrite app_assoc in H. now apply app_inv_tail in H.
  - now rewrite rev_involutive, drop_while_fixed.
Qed.

Example base_url_example :
  baseUrl (ByokClient_shared
             (mk_config (lit "byok_sk_1") (Some (lit "https://api.test///"))
                None)) = lit "https://api.test".
Proof. reflexivity. Qed.

(** X15. A wrapper never resolves on a status outside 200..299: it rejects
    with the [ByokError] of the class and the status of that response, or,
    when the error message cannot be converted to a string, with the
    TypeError of the constructor of [Error]. On a status inside 200..299 it
    never rejects with a [ByokError], and it resolves, to the parsed body,
    exactly when the body is JSON text. *)
Theorem wrapper_outcome (response : Response) :
  (Response_ok response = false ->
   (forall v, handle_response response <> Resolved v)
   /\ (forall text,
         Error_message (envelope_message response) = Some text ->
         exists e,
           handle_response response = RejectedByok e
           /\ name e = documented_kind (status response)
           /\ err_status e = status response
           /\ ~ (200 <= err_status e <= 299))
   /\ (Error_message (envelope_message response) = None ->
       handle_response response = RejectedOther))
  /\ (Response_ok response = true ->
      (forall e, handle_response response <> RejectedByok e)
      /\ (forall v, handle_response response = Resolved v <->
                    Response_json response = Some v)).
Proof.
  unfold handle_response. split; intros Hok; rewrite Hok; cbn [negb].
  - destruct (throwForStatus_outcome response) as (Hret & Hthrow & Htype).
    split; [|split].
    + intros v. destruct (throwForStatus response) eqn:E; try discriminate.
      now destruct (Hret v0).
    + intros text Ht. destruct (Hthrow text Ht) as (e & He & Hn & Hs & _).
      rewrite He. exists e. repeat split; try assumption.
      rewrite Hs. unfold Response_ok in Hok. lia.
    + intros Hn. now rewrite (Htype Hn).
  - split.
    + intros e. now destruct (Response_json response).
    + intros v. destruct (Response_json response) as [b|]; split;
        intros H; try discriminate; now injection H as ->.
Qed.

Lemma wrapper_outcome_witness :
  (exists e,
     handle_response string_error = RejectedByok e
     /\ name e = lit "NotFoundError"
     /\ err_status e = 404 /\ ~ (200 <= err_status e <= 299))
  /\ handle_response unconvertible_message = RejectedOther
  /\ handle_response
       (error_response 200 "OK" [] (bytesq "{'balance_usd':5}")) =
     Resolved (VObject [(lit "balance_usd", VNumber (Dec false 5 0))]).
Proof.
  split; [|split].
  - apply (proj1 (proj2 (proj1 (wrapper_outcome string_error) eq_refl))
             (VString (lit "no such player"))).
    reflexivity.
  - apply (proj2 (proj2 (proj1 (wrapper_outcome unconvertible_message)
                           eq_refl))).
    reflexivity.
  - destruct (proj2 (wrapper_outcome
                         (error_response 200 "OK" []
                            (bytesq "{'balance_usd':5}"))) eq_refl)
      as [_ Hres].
    apply Hres. reflexivity.
Defined.

(** *** Octets *)

Lemma lor_high (m k x : Z) :
  0 <= k -> 0 <= x < 2 ^ k -> Z.lor (m * 2 ^ k) x = m * 2 ^ k + x.
Proof.
  intros Hk Hx.
  assert (H0 : Z.land (m * 2 ^ k) x = 0).
  { apply Z.bits_inj'. intros n Hn. rewrite Z.land_spec, Z.bits_0.
    destruct (Z.ltb_spec n k) as [Hlt | Hge].
    - rewrite Z.mul_pow2_bits_low by lia. reflexivity.
    - rewrite <- (Z.mod_small x (2 ^ k)) by lia.
      rewrite Z.mod_pow2_bits_high by lia. apply andb_false_r. }
  rewrite <- Z.lxor_lor by exact H0.
  symmetry. now apply Z.add_nocarry_lxor.
Qed.

Lemma land_63 (x : Z) : Z.land x 63 = x mod 64.
Proof. change 63 with (Z.ones 6). now rewrite Z.land_ones by lia. Qed.

Lemma land_15 (x : Z) : Z.land x 15 = x mod 16.
Proof. change 15 with (Z.ones 4). now rewrite Z.land_ones by lia. Qed.

Lemma lor_128 (x : Z) : 0 <= x < 64 -> Z.lor 128 x = 128 + x.
Proof. intros H. apply (lor_high 2 6 x); lia. Qed.

Lemma lor_192 (x : Z) : 0 <= x < 64 -> Z.lor 192 x = 192 + x.
Proof. intros H. apply (lor_high 3 6 x); lia. Qed.

Lemma lor_224 (x : Z) : 0 <= x < 16 -> Z.lor 224 x = 224 + x.
Proof. intros H. apply (lor_high 14 4 x); lia. Qed.

Lemma lor_240 (x : Z) : 0 <= x < 8 -> Z.lor 240 x = 240 + x.
Proof. intros H. apply (lor_high 30 3 x); lia. Qed.

Lemma utf8_octets_arith_eq (cp : Z) :
  0 <= cp < 1114112 -> utf8_octets cp = utf8_octets_arith cp.
Proof.
  intros H. unfold utf8_octets, utf8_octets_arith.
  rewrite !land_63, !Z.shiftr_div_pow2 by lia.
  change (2 ^ 6) with 64. change (2 ^ 12) with 4096.
  change (2 ^ 18) with 262144.
  destruct (cp <? 128) eqn:H1; [reflexivity|].
  assert (Hm : forall y, 0 <= y mod 64 < 64)
    by (intros y; apply Z.mod_pos_bound; lia).
  destruct (cp <? 2048) eqn:H2.
  { rewrite lor_192, lor_128; [reflexivity | apply Hm |].
    apply Z.ltb_lt in H2. split; [apply Z.div_pos; lia|].
    apply Z.div_lt_upper_bound; lia. }
  destruct (cp <? 65536) eqn:H3.
  { rewrite lor_224, !lor_128; [reflexivity | apply Hm | apply Hm |].
    apply Z.ltb_lt in H3. split; [apply Z.div_pos; lia|].
    apply Z.div_lt_upper_bound; lia. }
  rewrite lor_240, !lor_128; [reflexivity | apply Hm | apply Hm | apply Hm |].
  split; [apply Z.div_pos; lia|]. apply Z.div_lt_upper_bound; lia.
Qed.

Lemma utf8_octets_bytes (cp : Z) :
  0 <= cp < 1114112 -> Forall (fun b => 0 <= b < 256) (utf8_octets cp).
Proof.
  intros H. rewrite (utf8_octets_arith_eq cp H). unfold utf8_octets_arith.
  assert (Hm : forall y, 0 <= y mod 64 < 64)
    by (intros y; apply Z.mod_pos_bound; lia).
  pose proof (Hm cp). pose proof (Hm (cp / 64)). pose proof (Hm (cp / 4096)).
  destruct (cp <? 128) eqn:E1; [repeat constructor; lia|].
  destruct (cp <? 2048) eqn:E2.
  { assert (0 <= cp / 64 < 32)
      by (split; [apply Z.div_pos; lia | apply Z.div_lt_upper_bound; lia]).
    repeat constructor; lia. }
  destruct (cp <? 65536) eqn:E3.
  { assert (0 <= cp / 4096 < 16)
      by (split; [apply Z.div_pos; lia | apply Z.div_lt_upper_bound; lia]).
    repeat constructor; lia. }
  assert (0 <= cp / 262144 < 8)
    by (split; [apply Z.div_pos; lia | apply Z.div_lt_upper_bound; lia]).
  repeat constructor; lia.
Qed.

Lemma hex_digit_safe (n : Z) :
  0 <= n < 16 -> is_uri_safe (hex_digit n) = true.
Proof.
  intros H. unfold is_uri_safe, is_unreserved, hex_digit.
  destruct (n <? 10) eqn:E; lia.
Qed.

Lemma percent_safe (b : Z) :
  0 <= b < 256 -> forallb is_uri_safe (percent b) = true.
Proof.
  intros H. unfold percent. cbn [forallb].
  rewrite land_15, Z.shiftr_div_pow2 by lia. change (2 ^ 4) with 16.
  rewrite !hex_digit_safe; [reflexivity | |].
  - apply Z.mod_pos_bound. lia.
  - split; [apply Z.div_pos; lia | apply Z.div_lt_upper_bound; lia].
Qed.

Lemma octets_safe (cp : Z) :
  0 <= cp < 1114112 ->
  forallb is_uri_safe (flat_map percent (utf8_octets cp)) = true.
Proof.
  intros H. pose proof (utf8_octets_bytes cp H) as Hb.
  induction Hb as [|b bs Hb _ IH]; [reflexivity|].
  cbn [flat_map]. now rewrite forallb_app, percent_safe, IH.
Qed.

Lemma encodeURIComponent_safe (n : nat) :
  forall s r,
    (length s <= n)%nat ->
    forallb is_code_unit s = true ->
    encodeURIComponent s = Some r ->
    forallb is_uri_safe r = true.
Proof.
  induction n as [|n IH]; intros s r Hn Hu H.
  - destruct s; [now injection H as <- | cbn in Hn; lia].
  - destruct s as [|c rest]; [now injection H as <-|].
    cbn [length forallb] in *. apply andb_prop in Hu as [Hc Hu].
    cbn [encodeURIComponent] in H.
    destruct (is_unreserved c) eqn:Hun.
    { destruct (encodeURIComponent rest) as [r'|] eqn:E; [|discriminate H].
      injection H as <-. cbn [forallb]. unfold is_uri_safe at 1.
      rewrite Hun. cbn [orb]. apply (IH rest r'); [lia | exact Hu | exact E]. }
    destruct (is_high_surrogate c) eqn:Hhi.
    { destruct rest as [|lo rest']; [discriminate H|].
      destruct (is_low_surrogate lo) eqn:Hlo; [|discriminate H].
      destruct (encodeURIComponent rest') as [r'|] eqn:E; [|discriminate H].
      injection H as <-. cbn [forallb length] in *.
      apply andb_prop in Hu as [_ Hu].
      rewrite forallb_app, (IH rest' r'); [|lia | exact Hu | exact E].
      rewrite octets_safe; [reflexivity|].
      unfold is_high_surrogate, is_low_surrogate in *. lia. }
    destruct (is_low_surrogate c); [discriminate H|].
    destruct (encodeURIComponent rest) as [r'|] eqn:E; [|discriminate H].
    injection H as <-.
    rewrite forallb_app, (IH rest r'); [|lia | exact Hu | exact E].
    rewrite octets_safe; [reflexivity|]. unfold is_code_unit in Hc. lia.
Qed.

Lemma safe_no_separator (r : jstring) :
  forallb is_uri_safe r = true ->
  ~ In 47 r /\ ~ In 63 r /\ ~ In 35 r.
Proof.
  intros H. rewrite forallb_forall in H.
  repeat split; intros Hin; apply H in Hin; discriminate Hin.
Qed.

(** X16. The URL string [events.ack] builds is the base URL,
    [/api/v1/events/], the encoded event id and [/ack], and the encoded id
    is made of unreserved characters, percent signs and upper-case
    hexadecimal digits only: whatever the id, it holds no slash, question
    mark or hash. (Dots are unreserved: the ids [.] and [..] are kept as
    they are, see [ack_url_dots].) *)
Theorem ack_url_one_segment
    (opts : APIOptions) (eventId url : jstring) :
  forallb is_code_unit eventId = true ->
  ack_url opts eventId = Some url ->
  exists id,
    url = baseUrl opts ++ lit "/api/v1/events/" ++ id ++ lit "/ack"
    /\ forallb is_uri_safe id = true
    /\ ~ In 47 id /\ ~ In 63 id /\ ~ In 35 id.
Proof.
  intros Hu H. unfold ack_url in H.
  destruct (encodeURIComponent eventId) as [id|] eqn:E; [|discriminate H].
  injection H as <-. exists id. split; [reflexivity|].
  pose proof (encodeURIComponent_safe (length eventId) eventId id
                (le_n _) Hu E) as Hs.
  split; [exact Hs|]. now apply safe_no_separator.
Qed.

Lemma ack_url_one_segment_witness :
  exists id,
    lit "https://byok.gg/api/v1/events/..%2Fadmin%3Fx%3D%C3%A9/ack" =
    lit "https://byok.gg" ++ lit "/api/v1/events/" ++ id ++ lit "/ack"
    /\ forallb is_uri_safe id = true
    /\ ~ In 47 id /\ ~ In 63 id /\ ~ In 35 id.
Proof.
  apply (ack_url_one_segment
           (mk_options (lit "https://byok.gg") (lit "byok_sk_1") None)
           (lit "../admin?x=" ++ [233])); reflexivity.
Defined.

(** An id of two dots is not changed by the encoding. *)
Example ack_url_dots :
  ack_url (mk_options (lit "https://byok.gg") (lit "byok_sk_1") None)
    (lit "..") = Some (lit "https://byok.gg/api/v1/events/../ack").
Proof. reflexivity. Qed.

(** X17. An id made of letters, digits and [-_.!~*'()] goes into the URL
    as it is. *)
Theorem encodeURIComponent_unreserved (s : jstring) :
  forallb is_unreserved s = true -> encodeURIComponent s = Some s.
Proof.
  induction s as [|c s IH]; [reflexivity|]. cbn [forallb].
  intros H. apply andb_prop in H as [Hc Hs].
  cbn [encodeURIComponent]. now rewrite Hc, (IH Hs).
Qed.

Lemma encodeURIComponent_unreserved_witness :
  encodeURIComponent (lit "evt_550e8400-e29b") = Some (lit "evt_550e8400-e29b").
Proof.
  apply (encodeURIComponent_unreserved (lit "evt_550e8400-e29b")).
  reflexivity.
Defined.

(** *** The octets read back by the decoder *)









(** *** The body of [register] *)



Example register_steam_wins :
  register_body
    [(lit "steamId", VString (lit "7656"));
     (lit "deviceId", VString (lit "550e"));
     (lit "displayName", VString [])]
  = [(lit "steam_id", VString (lit "7656"))].
Proof. reflexivity. Qed.

(** *** A content frame on the wire *)

Lemma parse_chars_plain (text r : jstring) :
  forallb is_plain_char text = true ->
  parse_chars (text ++ 34 :: r) = Some (text, r).
Proof.
  induction text as [|c text IH]; intros H.
  - cbn [app parse_chars]. reflexivity.
  - cbn [forallb] in H. apply andb_prop in H as [Hc H].
    unfold is_plain_char in Hc. cbn [app parse_chars].
    destruct (c =? 34) eqn:E1; [lia|]. destruct (c =? 92) eqn:E2; [lia|].
    destruct (c <? 32) eqn:E3; [lia|]. now rewrite (IH H).
Qed.

Lemma content_payload_parsed (text : jstring) (n : nat) :
  forallb is_plain_char text = true ->
  parse_value (9 + n)
    (litq "{'choices':[{'delta':{'content':'" ++ text ++ litq "'}}]}") =
  Parsed
    (VObject
       [(lit "choices",
         VArray
           [VObject
              [(lit "delta", VObject [(lit "content", VString text)])]])])
    [].
Proof.
  intros H. cbn. rewrite (parse_chars_plain text _ H). cbn. reflexivity.
Qed.

Lemma content_payload_JSON (text : jstring) :
  forallb is_plain_char text = true ->
  JSON_parse
    (litq "{'choices':[{'delta':{'content':'" ++ text ++ litq "'}}]}") =
  Some
    (VObject
       [(lit "choices",
         VArray
           [VObject
              [(lit "delta", VObject [(lit "content", VString text)])]])]).
Proof.
  intros H. unfold JSON_parse.
  set (payload :=
         litq "{'choices':[{'delta':{'content':'" ++ text ++ litq "'}}]}").
  assert (Hw : skip_ws payload = payload) by reflexivity.
  rewrite Hw.
  assert (Hf : exists n, parse_fuel payload = (9 + n)%nat).
  { exists (2 * length payload - 7)%nat. unfold parse_fuel.
    assert (9 <= 2 * length payload + 2)%nat; [|lia].
    subst payload. rewrite length_app. cbn. lia. }
  destruct Hf as [n ->]. subst payload.
  now rewrite (content_payload_parsed text n H).
Qed.

Lemma trim_framed (a z : Z) (m : jstring) :
  is_js_whitespace a = false -> is_js_whitespace z = false ->
  trim (a :: m ++ [z]) = a :: m ++ [z].
Proof.
  intros Ha Hz. unfold trim, trimStart. cbn [drop_while]. rewrite Ha.
  unfold trimEnd. change (a :: m ++ [z]) with ((a :: m) ++ [z]).
  rewrite rev_app_distr.
  change (rev [z] ++ rev (a :: m)) with (z :: rev (a :: m)).
  cbn [drop_while]. rewrite Hz.
  change (rev (z :: rev (a :: m))) with (rev (rev (a :: m)) ++ [z]).
  now rewrite rev_involutive.
Qed.

Lemma content_line_data (text : jstring) :
  data_of (content_line text) =
  Some (litq "{'choices':[{'delta':{'content':'" ++ text ++ litq "'}}]}").
Proof.
  unfold data_of.
  assert (Hl : content_line text =
               100 :: (litq "ata: {'choices':[{'delta':{'content':'"
                       ++ text ++ litq "'}}]") ++ [125]).
  { unfold content_line. rewrite <- !app_assoc. reflexivity. }
  rewrite Hl, trim_framed by reflexivity. rewrite <- Hl.
  reflexivity.
Qed.

Lemma content_line_one_line (text : jstring) :
  forallb is_plain_char text = true -> one_line (content_line text) = true.
Proof.
  intros H. unfold one_line, content_line. rewrite !forallb_app.
  apply andb_true_intro. split; [reflexivity|].
  apply andb_true_intro. split; [|reflexivity].
  rewrite forallb_forall in *. intros c Hc. apply H in Hc.
  unfold is_plain_char in Hc. lia.
Qed.

(** X20. A content frame in its wire form,
    [data: {"choices":[{"delta":{"content":"<text>"}}]}] with a text that is
    not empty and needs no escape, reached before the sequence has ended,
    gives one chunk that holds exactly that text, between the chunks of what
    precedes and of what follows. *)
Theorem content_frame_text
    (segments : list (list byte)) (a b text : jstring) :
  stream_text segments = a ++ content_line text ++ 10 :: b ->
  line_aligned a ->
  forallb is_plain_char text = true -> text <> [] ->
  none_done (text_chunks a) = true ->
  chunks (sse_response segments) =
  text_chunks a ++ [mk_chunk (VString text) false] ++ text_chunks b.
Proof.
  intros Hs Ha Hp Hne Hn.
  rewrite chunks_text, Hs. unfold text_chunks in *.
  rewrite (collect_text_gen_app a _ Ha).
  rewrite (text_gen_line _ b (content_line_one_line text Hp)).
  rewrite (for_lines_parsed _ _ _ [] _ (content_line_data text)
             (content_payload_JSON text Hp)).
  cbv zeta.
  change (opt_get
            (choice0
               (VObject
                  [(lit "choices",
                    VArray
                      [VObject
                         [(lit "delta",
                           VObject [(lit "content", VString text)])]])]))
            (lit "finish_reason")) with VUndefined.
  change (opt_get
            (choice0
               (VObject
                  [(lit "choices",
                    VArray
                      [VObject
                         [(lit "delta",
                           VObject [(lit "content", VString text)])]])]))
            (lit "delta")) with (VObject [(lit "content", VString text)]).
  change (opt_get (VObject [(lit "content", VString text)]) (lit "content"))
    with (VString text).
  change (get (VObject [(lit "content", VString text)]) (lit "content"))
    with (VString text).
  assert (Ht : truthy (VString text) = true).
  { cbn. apply negb_true_iff, jstring_eqb_neq. exact Hne. }
  rewrite Ht. cbn [truthy for_lines collect].
  destruct (collect (text_gen a)) as [cs r]. cbn [fst] in *. rewrite Hn.
  now destruct (collect (text_gen b)).
Qed.

Lemma content_frame_text_witness :
  chunks (sse_response
            [bytesq "data: {'choices':[{'delta':{'content':'Hel'}}]}" ++ lf;
             bytesq "data: {'choices':[{'delta':{'content':'lo'}}]}"
             ++ lf ++ lf ++ bytesq "data: [DONE]" ++ lf ++ lf]) =
  text_chunks (content_line (lit "Hel") ++ [10])
  ++ [mk_chunk (VString (lit "lo")) false]
  ++ text_chunks ([10] ++ lit "data: [DONE]" ++ [10; 10]).
Proof.
  apply (content_frame_text _ (content_line (lit "Hel") ++ [10])
           ([10] ++ lit "data: [DONE]" ++ [10; 10]) (lit "lo"));
    try reflexivity.
  discriminate.
Defined.

(** *** ASCII bodies *)

Lemma decode_ascii (bs : list byte) :
  forall d,
    Utf8.bytes_needed (utf8 d) = 0 ->
    forallb is_ascii_byte bs = true ->
    snd (decode d bs) = map byte_code bs.
Proof.
  induction bs as [|b bs IH]; intros d Hd H; [reflexivity|].
  cbn [forallb] in H. apply andb_prop in H as [Hb H].
  unfold is_ascii_byte in Hb. apply Z.ltb_lt in Hb.
  assert (H0 : 0 <= byte_code b) by (unfold byte_code; lia).
  cbn [decode map]. unfold decode_byte. fold (byte_code b).
  assert (Hh : Utf8.handle (utf8 d) (byte_code b) =
               (Utf8.initial, [byte_code b])).
  { unfold Utf8.handle. rewrite Hd. cbn [Z.eqb].
    unfold Utf8.handle_lead, Utf8.in_range.
    destruct ((0 <=? byte_code b) && (byte_code b <=? 127)) eqn:E;
      [reflexivity | lia]. }
  rewrite Hh.
  assert (Hser : exists f,
    serialize (bom_seen d) [byte_code b] = (f, [byte_code b])).
  { cbn [serialize]. unfold code_units.
    destruct (byte_code b <? 65536) eqn:E1; [|lia].
    destruct (byte_code b =? 65279) eqn:E2; [lia|].
    destruct (bom_seen d); eexists; reflexivity. }
  destruct Hser as [f ->].
  specialize (IH (mk_decoder Utf8.initial f) eq_refl H).
  destruct (decode (mk_decoder Utf8.initial f) bs) as [d2 s2].
  cbn [snd] in *. now rewrite IH.
Qed.

(** X21. When every byte of the body is an ASCII byte, the text the decoder
    works on is the body, byte for byte, however it is cut into reads. *)
Theorem ascii_text (segments : list (list byte)) :
  forallb is_ascii_byte (concat segments) = true ->
  stream_text segments = map byte_code (concat segments).
Proof. intros H. unfold stream_text. now apply decode_ascii. Qed.

Lemma ascii_text_witness :
  stream_text [bytesq "data: [DO"; bytesq "NE]" ++ lf] =
  map byte_code (concat [bytesq "data: [DO"; bytesq "NE]" ++ lf]).
Proof.
  apply (ascii_text [bytesq "data: [DO"; bytesq "NE]" ++ lf]). reflexivity.
Defined.

(** *** Line endings *)

Lemma drop_while_all (p : Z -> bool) (w : jstring) :
  forallb p w = true -> drop_while p w = [].
Proof.
  induction w as [|c w IH]; [reflexivity|]. cbn [forallb drop_while].
  intros H. apply andb_prop in H as [Hc Hw]. now rewrite Hc, IH.
Qed.

Lemma trimEnd_app_ws (l w : jstring) :
  forallb is_js_whitespace w = true -> trimEnd (l ++ w) = trimEnd l.
Proof.
  intros Hw. unfold trimEnd. rewrite rev_app_distr.
  now rewrite drop_while_app_all by now rewrite forallb_rev.
Qed.

Lemma trim_app_ws (l w : jstring) :
  forallb is_js_whitespace w = true -> trim (l ++ w) = trim l.
Proof.
  intros Hw. unfold trim, trimStart.
  induction l as [|c l IH].
  - cbn [app drop_while]. now rewrite (drop_while_all _ w Hw).
  - cbn [app drop_while]. destruct (is_js_whitespace c); [exact IH|].
    change (c :: l ++ w) with ((c :: l) ++ w). now apply trimEnd_app_ws.
Qed.

Lemma for_lines_cr (lines : list jstring) (k : Gen) :
  for_lines (map (fun l => l ++ [13]) lines) k = for_lines lines k.
Proof.
  induction lines as [|l rest IH]; [reflexivity|].
  cbn [map for_lines]. rewrite (trim_app_ws l [13] eq_refl). now rewrite IH.
Qed.

Lemma split_lf_crlf (t : jstring) :
  split_lf (crlf t) =
  map (fun l => l ++ [13]) (removelast (split_lf t))
  ++ [last (split_lf t) []].
Proof.
  induction t as [|c t IH]; [reflexivity|].
  change (crlf (c :: t))
    with ((if c =? 10 then [13; 10] else [c]) ++ crlf t).
  destruct (c =? 10) eqn:Hc.
  - apply Z.eqb_eq in Hc. subst c.
    change ([13; 10] ++ crlf t) with ([13] ++ 10 :: crlf t).
    rewrite (split_lf_line [13] (crlf t) eq_refl), IH.
    change (split_lf (10 :: t)) with ([] :: split_lf t).
    destruct (split_lf t) as [|l0 ls0] eqn:E;
      [now apply split_lf_nonempty in E | reflexivity].
  - cbn [app split_lf]. rewrite Hc, IH.
    destruct (split_lf t) as [|l0 [|l1 ls1]] eqn:E;
      [now apply split_lf_nonempty in E | reflexivity | reflexivity].
Qed.

Lemma text_gen_crlf (t : jstring) : text_gen (crlf t) = text_gen t.
Proof.
  unfold text_gen. rewrite split_lf_crlf.
  now rewrite removelast_last, last_last, for_lines_cr.
Qed.

(** X22. Lines that end with carriage return and line feed are read like
    lines that end with a line feed: the stream with every line feed
    preceded by a carriage return yields the same. *)
Theorem crlf_line_endings (segments segments' : list (list byte)) :
  stream_text segments' = crlf (stream_text segments) ->
  consume (sse_response segments') = consume (sse_response segments).
Proof.
  intros H. rewrite !consume_text, H. now rewrite text_gen_crlf.
Qed.

Lemma crlf_line_endings_witness :
  consume (sse_response
             [bytesq content_frame ++ [x0d; x0a; x0d; x0a]
              ++ bytesq "data: [DONE]" ++ [x0d; x0a; x0d; x0a]])
  = consume (sse_response
               [bytesq content_frame ++ lf ++ lf ++ bytesq "data: [DONE]"
                ++ lf ++ lf]).
Proof.
  apply (crlf_line_endings
           [bytesq content_frame ++ lf ++ lf ++ bytesq "data: [DONE]"
            ++ lf ++ lf]).
  reflexivity.
Defined.

(** *** A byte order mark *)

Lemma serialize_seen (cps : list Z) :
  fst (serialize true cps) = true.
Proof.
  induction cps as [|cp rest IH]; [reflexivity|]. cbn [serialize].
  now destruct (serialize true rest).
Qed.

Lemma serialize_unseen (cps : list Z) :
  (cps = [] /\ serialize false cps = (false, []))
  \/ (fst (serialize false cps) = true
      /\ (snd (serialize true cps) = snd (serialize false cps)
          \/ snd (serialize true cps) = 65279 :: snd (serialize false cps))).
Proof.
  destruct cps as [|cp rest]; [now left|]. right. cbn [serialize].
  pose proof (serialize_seen rest) as H.
  destruct (serialize true rest) as [f s]. cbn [fst] in H. subst f.
  destruct (cp =? 65279) eqn:E; cbn [fst snd].
  - split; [reflexivity|]. right. apply Z.eqb_eq in E. now subst cp.
  - split; [reflexivity | now left].
Qed.

(** With the mark taken as seen the decoder puts out the same text, or the
    same text after a U+FEFF. *)
Lemma decode_bom_flag (bs : list byte) :
  forall st,
    snd (decode (mk_decoder st true) bs)
    = snd (decode (mk_decoder st false) bs)
    \/ snd (decode (mk_decoder st true) bs)
       = 65279 :: snd (decode (mk_decoder st false) bs).
Proof.
  induction bs as [|b bs IH]; intros st; [now left|].
  cbn [decode]. unfold decode_byte. cbn [utf8 bom_seen].
  destruct (Utf8.handle st (Z.of_N (Byte.to_N b))) as [st' cps].
  pose proof (serialize_seen cps) as Hs.
  destruct (serialize_unseen cps) as [[-> Hu] | [Hf Ho]].
  - cbn [serialize]. specialize (IH st').
    destruct (decode (mk_decoder st' true) bs) as [d1 s1].
    destruct (decode (mk_decoder st' false) bs) as [d2 s2].
    exact IH.
  - destruct (serialize true cps) as [f1 o1].
    destruct (serialize false cps) as [f2 o2].
    cbn [fst snd] in *. subst f1 f2.
    destruct (decode (mk_decoder st' true) bs) as [d1 s1]. cbn [snd].
    destruct Ho as [-> | ->]; [now left | now right].
Qed.

Lemma for_lines_trim (l l' : jstring) (rest : list jstring) (k : Gen) :
  trim l = trim l' -> for_lines (l :: rest) k = for_lines (l' :: rest) k.
Proof. intros H. cbn [for_lines]. now rewrite H. Qed.

Lemma text_gen_bom (t : jstring) : text_gen (65279 :: t) = text_gen t.
Proof.
  unfold text_gen. cbn [split_lf].
  change (65279 =? 10) with false. cbv iota.
  destruct (split_lf t) as [|l0 [|l1 ls1]] eqn:E;
    [now apply split_lf_nonempty in E | reflexivity |].
  change (removelast ((65279 :: l0) :: l1 :: ls1))
    with ((65279 :: l0) :: removelast (l1 :: ls1)).
  change (removelast (l0 :: l1 :: ls1)) with (l0 :: removelast (l1 :: ls1)).
  change (last ((65279 :: l0) :: l1 :: ls1) [])
    with (last (l1 :: ls1) ([] : jstring)).
  change (last (l0 :: l1 :: ls1) []) with (last (l1 :: ls1) ([] : jstring)).
  now apply for_lines_trim.
Qed.

(** X23. A UTF-8 byte order mark before the body changes nothing: the stream
    yields what it yields without it, however the bytes are cut into
    reads. *)
Theorem byte_order_mark_ignored (segments segments' : list (list byte)) :
  concat segments' = utf8_bom ++ concat segments ->
  consume (sse_response segments') = consume (sse_response segments).
Proof.
  intros H. rewrite !consume_text. unfold stream_text. rewrite H.
  rewrite decode_app.
  change (decode new_TextDecoder utf8_bom)
    with (mk_decoder Utf8.initial true, @nil Z).
  destruct (decode_bom_flag (concat segments) Utf8.initial) as [Hb | Hb];
    unfold new_TextDecoder;
    destruct (decode (mk_decoder Utf8.initial true) (concat segments))
      as [d1 s1];
    cbn [snd app] in *; rewrite Hb;
    [reflexivity | now rewrite text_gen_bom].
Qed.

Lemma byte_order_mark_ignored_witness :
  consume (sse_response [[xef; xbb]; [xbf] ++ quiet_stream])
  = consume (sse_response [quiet_stream]).
Proof.
  apply (byte_order_mark_ignored [quiet_stream]
           [[xef; xbb]; [xbf] ++ quiet_stream]).
  reflexivity.
Defined.
